(** * The search-filter store of the explorer

    A shallow embedding of the filter store: the registry of available
    filters, the selection, the derivation of the backend query from the
    selection, the text search over the registry and the loading of saved
    searches.  The reactive store [searchStore] is a record passed from
    operation to operation; each exported function of the module becomes a
    function on that record.

    Strings are Rocq strings.  The method [toLowerCase] is a parameter
    ([LowerCase]) known by three of its laws, of which the first is what it
    does to ASCII strings.  [Filter.value] is typed [string | any] in the
    source; the store is modelled at the string case, and the key of a value
    of any type, read through its string form, is [getKeyOf]. *)

From Stdlib Require Import String Ascii List Bool ZArith Permutation Lia.
Import ListNotations.
Local Open Scope list_scope.

(* ================================================================== *)
(** ** JavaScript strings: the methods the store calls *)

Module JsString.

(** [`${a}-${b}`]: concatenation. *)
Definition concat (a b : string) : string := String.append a b.

(** A string is truthy when it is not empty. *)
Definition truthy (s : string) : bool :=
  match s with
  | EmptyString => false
  | String _ _ => true
  end.

Definition lower_ascii (c : ascii) : ascii :=
  let n := nat_of_ascii c in
  if (65 <=? n)%nat && (n <=? 90)%nat then ascii_of_nat (n + 32) else c.

(** What [String.prototype.toLowerCase] does to a string of ASCII
    characters: [A]-[Z] become [a]-[z], one by one. *)
Fixpoint asciiLower (s : string) : string :=
  match s with
  | EmptyString => EmptyString
  | String c s' => String (lower_ascii c) (asciiLower s')
  end.

(** All the characters of the string are ASCII. *)
Fixpoint isAscii (s : string) : bool :=
  match s with
  | EmptyString => true
  | String c s' => (nat_of_ascii c <? 128)%nat && isAscii s'
  end.

(** [s.startsWith(sub)]. *)
Fixpoint startsWith (s sub : string) : bool :=
  match sub, s with
  | EmptyString, _ => true
  | String _ _, EmptyString => false
  | String c sub', String d s' => Ascii.eqb c d && startsWith s' sub'
  end.

(** [s.includes(sub)]: [sub] occurs in [s] at some position. *)
Fixpoint includes (s sub : string) : bool :=
  if startsWith s sub then true
  else match s with
       | EmptyString => false
       | String _ s' => includes s' sub
       end.

(** [a || b] on an optional string: [undefined], [null] and the empty
    string are falsy. *)
Definition or_else (a : option string) (b : string) : string :=
  match a with
  | Some s => if truthy s then s else b
  | None => b
  end.

Definition truthy_opt (a : option string) : bool :=
  match a with
  | Some s => truthy s
  | None => false
  end.

End JsString.

(** [String.prototype.toLowerCase].  Beyond ASCII the method folds other
    letters and reads the context of a letter (the final sigma), so it is
    not computed here: it is a parameter with three laws of the method.  On
    an ASCII string it is [asciiLower]; the result is empty exactly when the
    string is; and it works on the two sides of a [-] apart, since [-] is
    neither a letter nor ignored when the context of a letter is read. *)
Class LowerCase : Type := {
  toLowerCase : string -> string;
  toLowerCase_ascii :
    forall s, JsString.isAscii s = true -> toLowerCase s = JsString.asciiLower s;
  toLowerCase_truthy :
    forall s, JsString.truthy (toLowerCase s) = JsString.truthy s;
  toLowerCase_dash :
    forall a b,
      toLowerCase (String.append a (String "-" b))
      = String.append (toLowerCase a) (String "-" (toLowerCase b))
}.

(* ================================================================== *)
(** ** JavaScript [Map] with string keys

    A [Map] iterates in insertion order, and the order of the selection is
    the order in which the query is derived, so a map is the list of its
    entries in insertion order.  [set] on a present key replaces the value
    where it stands; on a new key it appends. *)

Module JsMap.

Definition t (V : Type) : Type := list (string * V).

Section Ops.
Context {V : Type}.

Definition empty : t V := [].

Fixpoint get (k : string) (m : t V) : option V :=
  match m with
  | [] => None
  | (k', v) :: m' => if String.eqb k k' then Some v else get k m'
  end.

Definition has (k : string) (m : t V) : bool :=
  match get k m with
  | Some _ => true
  | None => false
  end.

Fixpoint set (k : string) (v : V) (m : t V) : t V :=
  match m with
  | [] => [(k, v)]
  | (k', v') :: m' =>
      if String.eqb k k' then (k, v) :: m' else (k', v') :: set k v m'
  end.

Definition delete (k : string) (m : t V) : t V :=
  filter (fun kv => negb (String.eqb k (fst kv))) m.

Definition clear (m : t V) : t V := [].

Definition keys (m : t V) : list string := map fst m.

Definition values (m : t V) : list V := map snd m.

(** The representation invariant: no key occurs twice. *)
Definition wf (m : t V) : Prop := NoDup (keys m).

End Ops.

End JsMap.

(* ================================================================== *)
(** ** The data model *)

(** Modelled from the spec: the enum [FilterType] of [./Filters], which is
    not among the sources.  The spec lists its members: Location, Tag,
    Kind, Category, Hidden; they are the five cases of the switch in
    [mapFiltersToQueryParams]. *)
Inductive FilterType : Type :=
  | Location
  | Tag
  | Kind
  | Category
  | Hidden.

(** [FilterType[t]]: the reverse mapping of a numeric enum gives the
    member's name. *)
Definition FilterType_name (t : FilterType) : string :=
  match t with
  | Location => "Location"
  | Tag => "Tag"
  | Kind => "Kind"
  | Category => "Category"
  | Hidden => "Hidden"
  end.

Definition FilterType_eqb (a b : FilterType) : bool :=
  match a, b with
  | Location, Location | Tag, Tag | Kind, Kind
  | Category, Category | Hidden, Hidden => true
  | _, _ => false
  end.

Inductive SearchType : Type :=
  | paths
  | objects.

(** [value] is [string | any] in the source.  The store is modelled where
    the values are strings; [FilterOf] below has values of any type. *)
Record FilterArgs : Type := {
  value : string;
  name : string;
  icon : option string
}.

(** [interface Filter extends FilterArgs]. *)
Record Filter : Type := {
  args :> FilterArgs;
  type : FilterType
}.

(** [interface SetFilter extends Filter]. *)
Record SetFilter : Type := {
  filter_of :> Filter;
  condition : bool;
  canBeRemoved : bool
}.

(** A filter together with its key: [Filter & { key: string }]. *)
Record KeyedFilter : Type := {
  keyed :> Filter;
  key : string
}.

(** The saved searches of [@sd/client], as [loadSearch] reads them. *)
Record SavedFilter : Type := {
  filter_type : FilterType;
  saved_name : string;
  saved_value : string;
  saved_icon : option string
}.

Record SavedSearch : Type := {
  id : Z;
  filters : option (list SavedFilter)
}.

(** [searchStore]. *)
Record SearchStore : Type := {
  isSearching : bool;
  interactingWithSearchOptions : bool;
  searchType : SearchType;
  searchQuery : option string;
  registeredFilters : JsMap.t Filter;
  selectedFilters : JsMap.t SetFilter
}.

Definition initialStore : SearchStore :=
  {| isSearching := false;
     interactingWithSearchOptions := false;
     searchType := paths;
     searchQuery := None;
     registeredFilters := JsMap.empty;
     selectedFilters := JsMap.empty |}.

Definition with_searchQuery (q : option string) (s : SearchStore) : SearchStore :=
  {| isSearching := isSearching s;
     interactingWithSearchOptions := interactingWithSearchOptions s;
     searchType := searchType s;
     searchQuery := q;
     registeredFilters := registeredFilters s;
     selectedFilters := selectedFilters s |}.

Definition with_registeredFilters (r : JsMap.t Filter) (s : SearchStore) : SearchStore :=
  {| isSearching := isSearching s;
     interactingWithSearchOptions := interactingWithSearchOptions s;
     searchType := searchType s;
     searchQuery := searchQuery s;
     registeredFilters := r;
     selectedFilters := selectedFilters s |}.

Definition with_selectedFilters (m : JsMap.t SetFilter) (s : SearchStore) : SearchStore :=
  {| isSearching := isSearching s;
     interactingWithSearchOptions := interactingWithSearchOptions s;
     searchType := searchType s;
     searchQuery := searchQuery s;
     registeredFilters := registeredFilters s;
     selectedFilters := m |}.

(* ================================================================== *)
(** ** Keys, selection and registration *)

(** [`${FilterType[filter.type]}-${filter.name}-${filter.value}`] *)
Definition getKey (filter : Filter) : string :=
  JsString.concat (FilterType_name (type filter))
    (JsString.concat "-"
       (JsString.concat (name filter)
          (JsString.concat "-" (value filter)))).

(** [selectFilter(filter, condition = true, canBeRemoved = true)]; the
    callers that rely on a default pass [true] here. *)
Definition selectFilter (filter : Filter) (condition canBeRemoved : bool)
    (s : SearchStore) : SearchStore :=
  let key := getKey filter in
  with_selectedFilters
    (JsMap.set key
       {| filter_of := filter; condition := condition; canBeRemoved := canBeRemoved |}
       (selectedFilters s))
    s.

(** [setFilter?.canBeRemoved !== false]: true when the entry is absent. *)
Definition deselectFilter (filter : Filter) (s : SearchStore) : SearchStore :=
  let key := getKey filter in
  let setFilter := JsMap.get key (selectedFilters s) in
  let removable :=
    match setFilter with
    | Some e => canBeRemoved e
    | None => true
    end in
  if removable
  then with_selectedFilters (JsMap.delete key (selectedFilters s)) s
  else s.

Definition resetSearchStore (s : SearchStore) : SearchStore :=
  with_selectedFilters (JsMap.clear (selectedFilters s))
    (with_searchQuery None s).

(** The [useMemo] of [useSearchFilter]: each argument with the hook's type
    and its key. *)
Definition useSearchFilter (type : FilterType) (filterArgs : option (list FilterArgs))
    : list KeyedFilter :=
  map (fun filter =>
         {| keyed := {| args := filter; type := type |};
            key := getKey {| args := filter; type := type |} |})
      (match filterArgs with
       | Some l => l
       | None => []
       end).

(** The [useEffect] of [useSearchFilter]: only filters whose key is not
    registered yet are registered.  The registry is a [Map<string, Filter>]:
    the entry is the filter, its extra [key] property is the map's key. *)
Definition registerFilters (filters : list KeyedFilter) (s : SearchStore) : SearchStore :=
  fold_left
    (fun s filter =>
       if negb (JsMap.has (key filter) (registeredFilters s))
       then with_registeredFilters
              (JsMap.set (key filter) (keyed filter) (registeredFilters s)) s
       else s)
    filters s.

Definition useSearchFilter_effect (type : FilterType)
    (filterArgs : option (list FilterArgs)) (s : SearchStore) : SearchStore :=
  registerFilters (useSearchFilter type filterArgs) s.

(** [if (!filter.icon) filter.icon = filter.name]. *)
Definition fillIcon (filter : Filter) : Filter :=
  if negb (JsString.truthy_opt (icon filter))
  then {| args := {| value := value filter;
                     name := name filter;
                     icon := Some (name filter) |};
          type := type filter |}
  else filter.

(** One turn of the loop over the fixed filters. *)
Definition fixedFilter_step (s : SearchStore) (filter : Filter) : SearchStore :=
  if JsString.truthy (name filter)
  then
    let filter := fillIcon filter in
    selectFilter filter true false
      (with_registeredFilters
         (JsMap.set (value filter) filter (registeredFilters s)) s)
  else s.

(** The mount effect of [useSearchFilters]. *)
Definition useSearchFilters_effect (fixedFilters : option (list Filter))
    (s : SearchStore) : SearchStore :=
  let s := resetSearchStore s in
  match fixedFilters with
  | Some l => fold_left fixedFilter_step l s
  | None => s
  end.

(** [searchRegisteredFilters(query)].  The keys come from the map itself,
    so the lookup [get(key)!] finds an entry for each of them
    ([searchRegisteredFilters_keys] below); the branch for a missing entry
    is never taken. *)
Definition searchRegisteredFilters {L : LowerCase} (query : string) (s : SearchStore)
    : list KeyedFilter :=
  if negb (JsString.truthy query) then []
  else
    let keys :=
      filter (fun k => JsString.includes (toLowerCase k) (toLowerCase query))
             (JsMap.keys (registeredFilters s)) in
    flat_map
      (fun k =>
         match JsMap.get k (registeredFilters s) with
         | Some f => [ {| keyed := f; key := k |} ]
         | None => []
         end)
      keys.

(** The filter [loadSearch] builds from a saved one. *)
Definition savedToFilter (sf : SavedFilter) : Filter :=
  {| args := {| value := saved_value sf;
                name := saved_name sf;
                icon := Some (JsString.or_else (saved_icon sf) "") |};
     type := filter_type sf |}.

Definition loadSearch_step (s : SearchStore) (sf : SavedFilter) : SearchStore :=
  let filter := savedToFilter sf in
  let key := getKey filter in
  selectFilter filter true true
    (with_registeredFilters (JsMap.set key filter (registeredFilters s)) s).

(** [loadSearch(id)] of [useSavedSearches], over the fetched [searches]. *)
Definition loadSearch (searches : list SavedSearch) (i : Z) (s : SearchStore)
    : SearchStore :=
  match find (fun search => Z.eqb (id search) i) searches with
  | Some search =>
      let s := with_selectedFilters (JsMap.clear (selectedFilters s)) s in
      fold_left loadSearch_step
        (match filters search with
         | Some l => l
         | None => []
         end)
        s
  | None => s
  end.

(* ================================================================== *)
(** ** Deriving the query from the selection *)

(** What [mapFiltersToQueryParams] takes from outside the sources: the
    global [parseInt] with the numbers it returns, the type [InOrNotIn<T>]
    of [@sd/client] and the helper [inOrNotIn] of [./util].  They are
    parameters of the derivation: what is proved below holds whatever they
    compute. *)
Class Externals : Type := {
  Num : Type;
  InOrNotIn : Type -> Type;
  parseInt : string -> Num;
  inOrNotIn : forall {T : Type}, option (InOrNotIn T) -> T -> bool -> InOrNotIn T
}.

Section Query.
Context {E : Externals}.

(** The fields of [ObjectFilterArgs] and [FilePathFilterArgs] that the
    derivation writes; an absent property is [None]. *)
Record ObjectFilterArgs : Type := {
  tags : option (InOrNotIn Num);
  kind : option (InOrNotIn Num);
  category : option (InOrNotIn string)
}.

Record FilePathFilterArgs : Type := {
  locations : option (InOrNotIn Num);
  hidden : option bool;
  object : option ObjectFilterArgs
}.

Record QueryParams : Type := {
  queryParams : FilePathFilterArgs;
  objectFilters : ObjectFilterArgs
}.

Definition emptyObjectFilters : ObjectFilterArgs :=
  {| tags := None; kind := None; category := None |}.

Definition emptyQueryParams : FilePathFilterArgs :=
  {| locations := None; hidden := None; object := None |}.

(** [Object.keys(o).length] *)
Definition objectKeysLength (o : ObjectFilterArgs) : nat :=
  let present {A : Type} (field : option A) : nat :=
    match field with
    | Some _ => 1
    | None => 0
    end in
  present (tags o) + present (kind o) + present (category o).

(** The body of the [forEach]: one filter applied to the two
    accumulators. *)
Definition applyFilter (acc : FilePathFilterArgs * ObjectFilterArgs)
    (filter : SetFilter) : FilePathFilterArgs * ObjectFilterArgs :=
  let (q, o) := acc in
  match type filter with
  | Location =>
      ({| locations :=
            Some (inOrNotIn (locations q) (parseInt (value filter)) (condition filter));
          hidden := hidden q;
          object := object q |}, o)
  | Tag =>
      (q, {| tags :=
               Some (inOrNotIn (tags o) (parseInt (value filter)) (condition filter));
             kind := kind o;
             category := category o |})
  | Kind =>
      (q, {| tags := tags o;
             kind :=
               Some (inOrNotIn (kind o) (parseInt (value filter)) (condition filter));
             category := category o |})
  | Category =>
      (q, {| tags := tags o;
             kind := kind o;
             category :=
               Some (inOrNotIn (category o) (value filter) (condition filter)) |})
  | Hidden =>
      ({| locations := locations q;
          hidden := Some (String.eqb (value filter) "true");
          object := object q |}, o)
  end.

Definition mapFiltersToQueryParams (filters : list SetFilter) : QueryParams :=
  let (q, o) := fold_left applyFilter filters (emptyQueryParams, emptyObjectFilters) in
  let q :=
    if (0 <? objectKeysLength o)%nat
    then {| locations := locations q; hidden := hidden q; object := Some o |}
    else q in
  {| queryParams := q; objectFilters := o |}.

(** What [useSearchFilters] returns for the store it reads. *)
Definition useSearchFilters (searchType : SearchType) (s : SearchStore)
    : ObjectFilterArgs + FilePathFilterArgs :=
  let filters := mapFiltersToQueryParams (JsMap.values (selectedFilters s)) in
  match searchType with
  | objects => inl (objectFilters filters)
  | paths => inr (queryParams filters)
  end.

End Query.

(** Modelled from the spec: the helper [inOrNotIn] of [./util] and the type
    [InOrNotIn] of [@sd/client], which are not among the sources.  The spec
    has one list per field, kept under a sign: an id is appended to the
    include list when the condition is true and to the exclude list when it
    is false, and a field holds ids as "in" or as "not in", never both.
    [parseInt] is the global function on decimal and hexadecimal numerals,
    with [None] for NaN and exact integers for numbers. *)
Module SpecExternals.

Inductive InOrNotIn (T : Type) : Type :=
  | In_ (l : list T)
  | NotIn (l : list T).
Arguments In_ {T} l.
Arguments NotIn {T} l.

Definition inOrNotIn {T : Type} (kind : option (InOrNotIn T)) (value : T)
    (condition : bool) : InOrNotIn T :=
  if condition then
    match kind with
    | Some (In_ l) => In_ (l ++ [value])
    | _ => In_ [value]
    end
  else
    match kind with
    | Some (NotIn l) => NotIn (l ++ [value])
    | _ => NotIn [value]
    end.

Definition isWhiteSpace (c : ascii) : bool :=
  let n := nat_of_ascii c in
  ((9 <=? n)%nat && (n <=? 13)%nat) || (n =? 32)%nat || (n =? 160)%nat.

Fixpoint trimStart (s : string) : string :=
  match s with
  | String c s' => if isWhiteSpace c then trimStart s' else s
  | EmptyString => s
  end.

Definition digitValue (c : ascii) : option Z :=
  let n := nat_of_ascii c in
  if (48 <=? n)%nat && (n <=? 57)%nat then Some (Z.of_nat (n - 48))
  else if (97 <=? n)%nat && (n <=? 122)%nat then Some (Z.of_nat (n - 87))
  else if (65 <=? n)%nat && (n <=? 90)%nat then Some (Z.of_nat (n - 55))
  else None.

(** The longest prefix of digits of the radix, read from the left. *)
Fixpoint digits (radix : Z) (s : string) (acc : option Z) : option Z :=
  match s with
  | EmptyString => acc
  | String c s' =>
      match digitValue c with
      | Some d =>
          if (d <? radix)%Z
          then digits radix s'
                 (Some (match acc with
                        | Some a => a * radix + d
                        | None => d
                        end)%Z)
          else acc
      | None => acc
      end
  end.

Definition unsignedPart (s : string) : option Z :=
  match s with
  | String "0" (String "x" s') => digits 16 s' None
  | String "0" (String "X" s') => digits 16 s' None
  | _ => digits 10 s None
  end.

Definition parseInt (s : string) : option Z :=
  match trimStart s with
  | String "-" s' => option_map Z.opp (unsignedPart s')
  | String "+" s' => unsignedPart s'
  | s' => unsignedPart s'
  end.

End SpecExternals.

#[export] Instance specExternals : Externals :=
  {| Num := option Z;
     InOrNotIn := SpecExternals.InOrNotIn;
     parseInt := SpecExternals.parseInt;
     inOrNotIn := @SpecExternals.inOrNotIn |}.

(* ================================================================== *)
(** ** Sequences of store operations *)

Inductive StoreOp : Type :=
  | OpSelect (filter : Filter) (condition canBeRemoved : bool)
  | OpDeselect (filter : Filter)
  | OpResetStore
  | OpRegister (type : FilterType) (filterArgs : option (list FilterArgs))
  | OpFixedFilters (fixedFilters : option (list Filter))
  | OpLoadSearch (searches : list SavedSearch) (i : Z).

Definition step (s : SearchStore) (op : StoreOp) : SearchStore :=
  match op with
  | OpSelect f c r => selectFilter f c r s
  | OpDeselect f => deselectFilter f s
  | OpResetStore => resetSearchStore s
  | OpRegister t a => useSearchFilter_effect t a s
  | OpFixedFilters l => useSearchFilters_effect l s
  | OpLoadSearch searches i => loadSearch searches i s
  end.

Definition run (ops : list StoreOp) (s : SearchStore) : SearchStore :=
  fold_left step ops s.

(** The keys of the selection are keys of the registry. *)
Definition contained (s : SearchStore) : Prop :=
  forall k, JsMap.has k (selectedFilters s) = true ->
            JsMap.has k (registeredFilters s) = true.

(** The selection holds a protected entry under [k]. *)
Definition protected (k : string) (s : SearchStore) : Prop :=
  exists e, JsMap.get k (selectedFilters s) = Some e /\ canBeRemoved e = false.

(* ================================================================== *)
(** ** Vocabulary of the statements *)

(** Several [set]s in a row, as the loops over fixed and saved filters do. *)
Definition setAll {V : Type} (kvs : list (string * V)) (m : JsMap.t V) : JsMap.t V :=
  fold_left (fun m kv => JsMap.set (fst kv) (snd kv) m) kvs m.

(** The entry [selectFilter] writes. *)
Definition selectedEntry (filter : Filter) (condition canBeRemoved : bool)
    : string * SetFilter :=
  (getKey filter,
   {| filter_of := filter; condition := condition; canBeRemoved := canBeRemoved |}).


(** The fixed filters the mount effect takes: those with a name. *)
Definition named (fixedFilters : list Filter) : list Filter :=
  filter (fun f : Filter => JsString.truthy (name f)) fixedFilters.

(** The filters of the saved search [loadSearch] finds, in Filter shape. *)
Definition savedFilters (search : SavedSearch) : list Filter :=
  map savedToFilter
      (match filters search with
       | Some l => l
       | None => []
       end).

Definition findSearch (searches : list SavedSearch) (i : Z) : option SavedSearch :=
  find (fun search => Z.eqb (id search) i) searches.

(** Operations under which the containment of the selection in the
    registry is kept: a filter is selected only when its key is registered,
    and the fixed-filter effect is left aside. *)
Definition allowed (s : SearchStore) (op : StoreOp) : Prop :=
  match op with
  | OpSelect f _ _ => JsMap.has (getKey f) (registeredFilters s) = true
  | OpFixedFilters _ => False
  | _ => True
  end.

Fixpoint guarded (s : SearchStore) (ops : list StoreOp) : Prop :=
  match ops with
  | [] => True
  | op :: ops' => allowed s op /\ guarded (step s op) ops'
  end.

(** User operations that never clear the selection: deselecting, and
    loading a saved search that is not among the fetched ones. *)
Definition keepsProtected (op : StoreOp) : Prop :=
  match op with
  | OpDeselect _ => True
  | OpLoadSearch searches i => findSearch searches i = None
  | _ => False
  end.



(** Both maps of the store are free of repeated keys. *)
Definition wfStore (s : SearchStore) : Prop :=
  JsMap.wf (registeredFilters s) /\ JsMap.wf (selectedFilters s).

Section QueryVocabulary.
Context {E : Externals}.

(** The filters of one type, in the order of the list. *)
Definition ofType (t : FilterType) (fs : list SetFilter) : list SetFilter :=
  filter (fun f : SetFilter => FilterType_eqb (type f) t) fs.

(** One field accumulated over the filters that write it. *)
Definition accumulate {T : Type} (read : SetFilter -> T) (fs : list SetFilter)
    (acc : option (InOrNotIn T)) : option (InOrNotIn T) :=
  fold_left (fun a (f : SetFilter) => Some (inOrNotIn a (read f) (condition f)))
    fs acc.

(** [hidden] after the Hidden filters of the list: the last one decides. *)
Definition hiddenAfter (fs : list SetFilter) (acc : option bool) : option bool :=
  fold_left (fun _ (f : SetFilter) => Some (String.eqb (value f) "true")) fs acc.

Definition writesObject (f : SetFilter) : bool :=
  match type f with
  | Tag | Kind | Category => true
  | Location | Hidden => false
  end.

End QueryVocabulary.

(** The filters of the examples. *)
Definition mkFilter (t : FilterType) (n v : string) : Filter :=
  {| args := {| value := v; name := n; icon := None |}; type := t |}.

Definition mkSet (f : Filter) (c r : bool) : SetFilter :=
  {| filter_of := f; condition := c; canBeRemoved := r |}.

Definition tagWork : Filter := mkFilter Tag "Work" "3".
Definition locationHome : Filter := mkFilter Location "Home" "1".
Definition hiddenTrue : Filter := mkFilter Hidden "Hidden" "true".
Definition hiddenFalse : Filter := mkFilter Hidden "Hidden" "false".

(** Two filters of one type whose names and values differ and whose keys
    are both [Tag-a-b-c]. *)
Definition dashInName : Filter := mkFilter Tag "a-b" "c".
Definition dashInValue : Filter := mkFilter Tag "a" "b-c".

(** A saved search with the tag [Work] twice, under two icons. *)
Definition savedFolder : SavedFilter :=
  {| filter_type := Tag; saved_name := "Work"; saved_value := "3";
     saved_icon := Some "Folder"%string |}.

Definition savedStar : SavedFilter :=
  {| filter_type := Tag; saved_name := "Work"; saved_value := "3";
     saved_icon := Some "Star"%string |}.

Definition savedTwice : SavedSearch :=
  {| id := 9; filters := Some [ savedFolder; savedStar ] |}.

(** A saved search of two filters, one without an icon. *)
Definition savedHome : SavedFilter :=
  {| filter_type := Location; saved_name := "Home"; saved_value := "2";
     saved_icon := None |}.

Definition savedPair : SavedSearch :=
  {| id := 7; filters := Some [ savedStar; savedHome ] |}.

Definition savedWork : SavedSearch :=
  {| id := 7;
     filters := Some [ {| filter_type := Tag; saved_name := "Work";
                          saved_value := "3"; saved_icon := None |} ] |}.

(* ================================================================== *)
(** ** Grouping the selection and saving it *)

(** [interface GroupedFilters]. *)
Module GroupedFilters.

Record t : Type := {
  type : FilterType;
  filters : list SetFilter
}.

End GroupedFilters.

(** [group.filters.push(filter)] on the group that [find] returned: the
    first group of the type, changed where it stands in the array. *)
Fixpoint pushToGroup (t : FilterType) (filter : SetFilter)
    (groupedFilters : list GroupedFilters.t) : list GroupedFilters.t :=
  match groupedFilters with
  | [] => []
  | group :: rest =>
      if FilterType_eqb (GroupedFilters.type group) t
      then {| GroupedFilters.type := GroupedFilters.type group;
              GroupedFilters.filters := GroupedFilters.filters group ++ [filter] |}
           :: rest
      else group :: pushToGroup t filter rest
  end.

(** The body of the [forEach] of [getSelectedFiltersGrouped]. *)
Definition groupFilter (groupedFilters : list GroupedFilters.t) (filter : SetFilter)
    : list GroupedFilters.t :=
  match find (fun group => FilterType_eqb (GroupedFilters.type group) (type filter))
             groupedFilters with
  | Some _ => pushToGroup (type filter) filter groupedFilters
  | None =>
      groupedFilters
      ++ [ {| GroupedFilters.type := type filter;
              GroupedFilters.filters := [filter] |} ]
  end.

Definition getSelectedFiltersGrouped (s : SearchStore) : list GroupedFilters.t :=
  fold_left groupFilter (JsMap.values (selectedFilters s)) [].

(** The argument of [createSavedSearch.mutate]. *)
Module CreateArgs.

Record t : Type := {
  name : string;
  description : string;
  icon : string;
  filters : list SavedFilter
}.

End CreateArgs.

(** The saved shape of a selected filter: [icon: filter.icon || 'Folder']. *)
Definition toSavedFilter (filter : SetFilter) : SavedFilter :=
  {| filter_type := type filter;
     saved_name := name filter;
     saved_value := value filter;
     saved_icon := Some (JsString.or_else (icon filter) "Folder") |}.

(** [saveSearch(name)] of [useSavedSearches]: what it hands to the
    mutation. *)
Definition saveSearch (name : string) (s : SearchStore) : CreateArgs.t :=
  let filters := JsMap.values (selectedFilters s) in
  {| CreateArgs.name := name;
     CreateArgs.description := "";
     CreateArgs.icon := "";
     CreateArgs.filters := map toSavedFilter filters |}.

(** *** Values that are not strings

    [FilterArgs.value] is [string | any].  A filter whose value has any type
    [A], and the key the template literal of [getKey] gives it: the value is
    read through its string form, [toString]. *)
Record FilterOf (A : Type) : Type := {
  typeOf : FilterType;
  nameOf : string;
  valueOf : A;
  iconOf : option string
}.
Arguments typeOf {A} _.
Arguments nameOf {A} _.
Arguments valueOf {A} _.
Arguments iconOf {A} _.

Definition getKeyOf {A : Type} (toString : A -> string) (filter : FilterOf A)
    : string :=
  JsString.concat (FilterType_name (typeOf filter))
    (JsString.concat "-"
       (JsString.concat (nameOf filter)
          (JsString.concat "-" (toString (valueOf filter))))).

(** A filter with a string value, among the filters with any value. *)
Definition ofFilter (filter : Filter) : FilterOf string :=
  {| typeOf := type filter; nameOf := name filter;
     valueOf := value filter; iconOf := icon filter |}.

(** Two kinds of values for the examples, a boolean and a string, with the
    string form JavaScript gives them. *)
Inductive BoolOrString : Type :=
  | ABool (b : bool)
  | AString (s : string).

Definition toStringOf (v : BoolOrString) : string :=
  match v with
  | ABool true => "true"
  | ABool false => "false"
  | AString s => s
  end.

(** *** Vocabulary of the further statements *)

(** The types of a list, each once, in the order of their first
    occurrence. *)
Definition firstSeen (types : list FilterType) : list FilterType :=
  fold_left
    (fun seen t => if existsb (FilterType_eqb t) seen then seen else seen ++ [t])
    types [].

(** The group of one type over a list of selected filters. *)
Definition groupOf (fs : list SetFilter) (t : FilterType) : GroupedFilters.t :=
  {| GroupedFilters.type := t;
     GroupedFilters.filters := filter (fun f : SetFilter => FilterType_eqb (type f) t) fs |}.

(** The string has no [-]. *)
Fixpoint noDash (s : string) : bool :=
  match s with
  | EmptyString => true
  | String c s' => negb (Ascii.eqb c "-") && noDash s'
  end.

(** Every entry of the selection stands under the key of its own filter. *)
Definition selectionKeyed (s : SearchStore) : Prop :=
  forall k e, In (k, e) (selectedFilters s) -> k = getKey e.

(** Two selected filters that the derivation cannot tell apart: the same
    type and value, and the same condition unless they are Hidden. *)
Definition sameForQuery (f g : SetFilter) : Prop :=
  type f = type g /\ value f = value g
  /\ (type f <> Hidden -> condition f = condition g).

(** A selected filter after it was saved and loaded again. *)
Definition reloaded (e : SetFilter) : SetFilter :=
  {| filter_of := savedToFilter (toSavedFilter e);
     condition := true;
     canBeRemoved := true |}.

(* ================================================================== *)
(** * Properties *)

(** ** Maps *)

Module JsMapFacts.
Import JsMap.

Section Facts.
Context {V : Type}.
Implicit Types (m : t V) (k : string) (v : V).

Lemma get_set_eq k v m : get k (set k v m) = Some v.
Proof.
  induction m as [|[k' v'] m IH]; simpl.
  - now rewrite String.eqb_refl.
  - destruct (String.eqb k k') eqn:Hk; simpl.
    + now rewrite String.eqb_refl.
    + now rewrite Hk.
Qed.

Lemma get_set_ne k k' v m : k <> k' -> get k' (set k v m) = get k' m.
Proof.
  intros Hne. induction m as [|[k0 v0] m IH]; simpl.
  - apply not_eq_sym, String.eqb_neq in Hne. now rewrite Hne.
  - destruct (String.eqb k k0) eqn:Hk; simpl.
    + apply String.eqb_eq in Hk. subst k0.
      apply not_eq_sym, String.eqb_neq in Hne. now rewrite Hne.
    + now rewrite IH.
Qed.

Lemma get_delete_eq k m : get k (delete k m) = None.
Proof.
  unfold delete. induction m as [|[k' v'] m IH]; simpl; [reflexivity|].
  destruct (String.eqb k k') eqn:Hk; simpl; [assumption|].
  now rewrite Hk.
Qed.

Lemma get_delete_ne k k' m : k <> k' -> get k' (delete k m) = get k' m.
Proof.
  intros Hne. unfold delete.
  induction m as [|[k0 v0] m IH]; simpl; [reflexivity|].
  destruct (String.eqb k k0) eqn:Hk; simpl.
  - apply String.eqb_eq in Hk. subst k0.
    apply not_eq_sym, String.eqb_neq in Hne. now rewrite Hne.
  - now rewrite IH.
Qed.

Lemma delete_absent k m : get k m = None -> delete k m = m.
Proof.
  unfold delete. induction m as [|[k' v'] m IH]; simpl; [reflexivity|].
  destruct (String.eqb k k') eqn:Hk; simpl; [discriminate|].
  intros H. now rewrite IH.
Qed.

Lemma has_true_iff k m : has k m = true <-> exists v, get k m = Some v.
Proof.
  unfold has. destruct (get k m) as [v|]; split.
  - eauto.
  - reflexivity.
  - discriminate.
  - intros [v Hv]. discriminate.
Qed.

Lemma has_false_iff k m : has k m = false <-> get k m = None.
Proof. unfold has. destruct (get k m); split; congruence. Qed.

Lemma has_set_eq k v m : has k (set k v m) = true.
Proof. unfold has. now rewrite get_set_eq. Qed.

Lemma has_set_ne k k' v m : k <> k' -> has k' (set k v m) = has k' m.
Proof. intros Hne. unfold has. now rewrite get_set_ne. Qed.

Lemma has_set_mono k k' v m : has k' m = true -> has k' (set k v m) = true.
Proof.
  intros H. destruct (String.eqb_spec k k') as [->|Hne].
  - apply has_set_eq.
  - now rewrite has_set_ne.
Qed.

Lemma in_keys_iff k m : In k (keys m) <-> has k m = true.
Proof.
  unfold has, keys. induction m as [|[k' v'] m IH]; simpl.
  - split; [tauto | discriminate].
  - destruct (String.eqb_spec k k') as [->|Hne].
    + split; auto.
    + rewrite <- IH. split; [intros [H|H]; congruence | auto].
Qed.

Lemma get_in k v m : get k m = Some v -> In (k, v) m.
Proof.
  induction m as [|[k' v'] m IH]; simpl; [discriminate|].
  destruct (String.eqb_spec k k') as [->|Hne].
  - intros [= ->]. now left.
  - auto.
Qed.

(** [set] keeps the order of the keys: a present key stays in place, a
    new one goes last. *)
Lemma keys_set k v m :
  keys (set k v m) = if has k m then keys m else keys m ++ [k].
Proof.
  unfold has, keys. induction m as [|[k' v'] m IH]; simpl; [reflexivity|].
  destruct (String.eqb_spec k k') as [->|Hne]; simpl; [reflexivity|].
  rewrite IH. now destruct (get k m).
Qed.

Lemma wf_empty : wf (@empty V).
Proof. constructor. Qed.

Lemma wf_set k v m : wf m -> wf (set k v m).
Proof.
  unfold wf. intros Hm. rewrite keys_set.
  destruct (has k m) eqn:Hk; [assumption|].
  apply NoDup_app; [assumption | repeat constructor; auto |].
  intros x Hx [<-|[]].
  apply in_keys_iff in Hx. congruence.
Qed.

Lemma wf_delete k m : wf m -> wf (delete k m).
Proof.
  unfold wf, delete, keys. induction m as [|[k' v'] m IH]; simpl; [auto|].
  intros Hm. inversion Hm as [|? ? Hnin Hnd]; subst.
  destruct (String.eqb k k'); simpl; [auto|].
  constructor; [|auto].
  intros Hin. apply Hnin.
  apply in_map_iff in Hin. destruct Hin as [[k0 v0] [Heq Hin]].
  apply filter_In in Hin. apply in_map_iff. exists (k0, v0). tauto.
Qed.

End Facts.

End JsMapFacts.

(** ** Loops of [set] *)

Section SetAll.
Context {V : Type}.
Implicit Types (m : JsMap.t V) (kvs : list (string * V)) (k : string) (v : V).

Lemma get_app k m m' :
  JsMap.get k (m ++ m')
  = match JsMap.get k m with
    | Some v => Some v
    | None => JsMap.get k m'
    end.
Proof.
  induction m as [|[k' v'] m IH]; simpl; [reflexivity|].
  now destruct (String.eqb k k').
Qed.

(** After the loop a key holds what the last [set] on it wrote. *)
Lemma get_setAll k kvs m :
  JsMap.get k (setAll kvs m)
  = match JsMap.get k (rev kvs) with
    | Some v => Some v
    | None => JsMap.get k m
    end.
Proof.
  unfold setAll. revert m.
  induction kvs as [|[k0 v0] kvs IH]; intros m; simpl; [reflexivity|].
  rewrite IH, get_app. destruct (JsMap.get k (rev kvs)); [reflexivity|].
  simpl. destruct (String.eqb_spec k k0) as [->|Hne].
  - apply JsMapFacts.get_set_eq.
  - apply JsMapFacts.get_set_ne. congruence.
Qed.

Lemma get_setAll_inv k v kvs m :
  JsMap.get k (setAll kvs m) = Some v ->
  In (k, v) kvs \/ JsMap.get k m = Some v.
Proof.
  rewrite get_setAll.
  destruct (JsMap.get k (rev kvs)) as [v'|] eqn:Hg; [|auto].
  intros [= <-]. left. apply in_rev. now apply JsMapFacts.get_in.
Qed.

Lemma has_setAll k kvs m :
  JsMap.has k (setAll kvs m) = true
  <-> (exists v, In (k, v) kvs) \/ JsMap.has k m = true.
Proof.
  split.
  - intros H. apply JsMapFacts.has_true_iff in H. destruct H as [v Hv].
    apply get_setAll_inv in Hv. destruct Hv as [Hv|Hv]; [eauto|].
    right. apply JsMapFacts.has_true_iff. eauto.
  - intros H. unfold JsMap.has. rewrite get_setAll.
    destruct (JsMap.get k (rev kvs)) as [v'|] eqn:Hg; [reflexivity|].
    destruct H as [[v Hv]|H].
    + assert (Hk : In k (JsMap.keys (rev kvs))).
      { unfold JsMap.keys. apply in_map_iff. exists (k, v).
        split; [reflexivity | now apply in_rev in Hv]. }
      apply JsMapFacts.in_keys_iff, JsMapFacts.has_true_iff in Hk.
      destruct Hk as [v'' Hk]. congruence.
    + exact H.
Qed.

Lemma wf_setAll kvs m : JsMap.wf m -> JsMap.wf (setAll kvs m).
Proof.
  unfold setAll. revert m.
  induction kvs as [|kv kvs IH]; intros m Hm; simpl; [assumption|].
  apply IH. now apply JsMapFacts.wf_set.
Qed.

End SetAll.

(** ** More on maps *)

Section MoreMaps.
Context {V : Type}.
Implicit Types (m : JsMap.t V) (kvs : list (string * V)) (k : string) (v : V).

Lemma in_set_inv k v k' v' m :
  In (k', v') (JsMap.set k v m) -> (k' = k /\ v' = v) \/ In (k', v') m.
Proof.
  induction m as [|[k0 v0] m IH]; simpl.
  - intros [[= <- <-]|[]]. now left.
  - destruct (String.eqb k k0); simpl.
    + intros [[= <- <-]|H]; [now left | right; now right].
    + intros [H|H]; [right; now left |].
      destruct (IH H) as [H'|H']; [now left | right; now right].
Qed.

Lemma in_delete_inv k (kv : string * V) m : In kv (JsMap.delete k m) -> In kv m.
Proof. unfold JsMap.delete. intros H. now apply filter_In in H. Qed.

Lemma in_setAll_inv (kv : string * V) kvs m :
  In kv (setAll kvs m) -> In kv kvs \/ In kv m.
Proof.
  unfold setAll. revert m.
  induction kvs as [|[k0 v0] kvs IH]; intros m; simpl; [auto|].
  intros H. destruct (IH _ H) as [H'|H']; [left; now right|].
  destruct kv as [k v]. apply in_set_inv in H'.
  destruct H' as [[-> ->]|H']; [left; now left | now right].
Qed.


Lemma set_absent k v m : JsMap.get k m = None -> JsMap.set k v m = m ++ [(k, v)].
Proof.
  induction m as [|[k0 v0] m IH]; simpl; [reflexivity|].
  destruct (String.eqb k k0); [discriminate|].
  intros H. now rewrite IH.
Qed.

Lemma delete_app k m m' :
  JsMap.delete k (m ++ m') = JsMap.delete k m ++ JsMap.delete k m'.
Proof. apply filter_app. Qed.

Lemma delete_set_absent k v m :
  JsMap.get k m = None -> JsMap.delete k (JsMap.set k v m) = m.
Proof.
  intros H. rewrite set_absent, delete_app by assumption.
  rewrite JsMapFacts.delete_absent by assumption.
  unfold JsMap.delete. simpl. rewrite String.eqb_refl. apply app_nil_r.
Qed.

Lemma delete_delete k k' m :
  JsMap.delete k (JsMap.delete k' m) = JsMap.delete k' (JsMap.delete k m).
Proof.
  unfold JsMap.delete. induction m as [|[k0 v0] m IH]; simpl; [reflexivity|].
  destruct (String.eqb k' k0) eqn:H1, (String.eqb k k0) eqn:H2; simpl;
    rewrite ?H1, ?H2; simpl; now rewrite IH.
Qed.

Lemma delete_idempotent k m :
  JsMap.delete k (JsMap.delete k m) = JsMap.delete k m.
Proof.
  apply JsMapFacts.delete_absent, JsMapFacts.get_delete_eq.
Qed.

(** Entries with new, distinct keys are appended in their order. *)
Lemma setAll_fresh kvs m :
  NoDup (map fst kvs) ->
  (forall kv, In kv kvs -> JsMap.get (fst kv) m = None) ->
  setAll kvs m = m ++ kvs.
Proof.
  unfold setAll. revert m.
  induction kvs as [|[k v] kvs IH]; intros m Hnd Hfresh; simpl.
  - now rewrite app_nil_r.
  - inversion Hnd as [|? ? Hnin Hnd']; subst.
    rewrite set_absent by (apply (Hfresh (k, v)); now left).
    rewrite IH; [now rewrite <- app_assoc | assumption |].
    intros [k1 v1] Hin. simpl. rewrite get_app.
    pose proof (Hfresh (k1, v1) (or_intror Hin)) as Hf. simpl in Hf.
    rewrite Hf. simpl.
    destruct (String.eqb_spec k1 k) as [->|Hne]; [|reflexivity].
    exfalso. apply Hnin. apply in_map_iff. now exists (k, v1).
Qed.

(** Two maps with the same keys in the same order and the same lookups are
    the same map. *)
Lemma jsmap_ext m1 m2 :
  JsMap.wf m1 -> JsMap.keys m1 = JsMap.keys m2 ->
  (forall k, JsMap.get k m1 = JsMap.get k m2) -> m1 = m2.
Proof.
  unfold JsMap.wf, JsMap.keys. revert m2.
  induction m1 as [|[k v] m1 IH]; intros [|[k' v'] m2]; simpl;
    try discriminate; [reflexivity|].
  intros Hnd [= <- Hkeys] Hget.
  inversion Hnd as [|? ? Hnin Hnd']; subst.
  assert (Hv : v = v').
  { specialize (Hget k). rewrite String.eqb_refl in Hget. congruence. }
  subst v'. f_equal. apply IH; [assumption | assumption |].
  intros k0. specialize (Hget k0).
  destruct (String.eqb k0 k) eqn:Hk0; [|assumption].
  apply String.eqb_eq in Hk0. subst k0.
  assert (H1 : JsMap.get k m1 = None).
  { apply JsMapFacts.has_false_iff. destruct (JsMap.has k m1) eqn:Hh; [|reflexivity].
    apply JsMapFacts.in_keys_iff in Hh. now destruct (Hnin Hh). }
  assert (H2 : JsMap.get k m2 = None).
  { apply JsMapFacts.has_false_iff. destruct (JsMap.has k m2) eqn:Hh; [|reflexivity].
    apply JsMapFacts.in_keys_iff in Hh. unfold JsMap.keys in Hh.
    rewrite <- Hkeys in Hh. now destruct (Hnin Hh). }
  congruence.
Qed.

(** [set] on keys that are all present keeps the keys as they stand. *)
Lemma keys_setAll_present kvs m :
  (forall kv, In kv kvs -> JsMap.has (fst kv) m = true) ->
  JsMap.keys (setAll kvs m) = JsMap.keys m.
Proof.
  unfold setAll. revert m.
  induction kvs as [|[k v] kvs IH]; intros m Hall; simpl; [reflexivity|].
  rewrite IH.
  - rewrite JsMapFacts.keys_set.
    pose proof (Hall (k, v) (or_introl eq_refl)) as Hk. simpl in Hk.
    now rewrite Hk.
  - intros kv Hin. apply JsMapFacts.has_set_mono. apply Hall. now right.
Qed.

(** Running the same loop of [set]s again changes nothing. *)
Lemma setAll_idempotent kvs m :
  JsMap.wf m -> setAll kvs (setAll kvs m) = setAll kvs m.
Proof.
  intros Hwf. apply jsmap_ext.
  - now apply wf_setAll, wf_setAll.
  - apply keys_setAll_present. intros [k v] Hin. apply has_setAll. left. eauto.
  - intros k. rewrite (get_setAll k kvs (setAll kvs m)), (get_setAll k kvs m).
    now destruct (JsMap.get k (rev kvs)).
Qed.

End MoreMaps.

(** The lookup in a list of entries made from a list: the first element
    with the key. *)
Lemma get_map_entries {A V : Type} (kf : A -> string) (vf : A -> V) (l : list A)
    (k : string) :
  JsMap.get k (map (fun x => (kf x, vf x)) l)
  = option_map vf (find (fun x => String.eqb k (kf x)) l).
Proof.
  induction l as [|x l IH]; simpl; [reflexivity|].
  now destruct (String.eqb k (kf x)).
Qed.

(** ** Strings *)

Module JsStringFacts.
Import JsString.
Local Open Scope string_scope.

Lemma startsWith_iff s sub :
  startsWith s sub = true <-> exists post, s = sub ++ post.
Proof.
  revert s. induction sub as [|c sub IH]; intros s; simpl.
  - split; [intros _; now exists s | now destruct s].
  - destruct s as [|d s]; simpl.
    + split; [discriminate | intros [post H]; discriminate].
    + rewrite andb_true_iff, IH. split.
      * intros [Hc [post ->]]. apply Ascii.eqb_eq in Hc. subst d. now exists post.
      * intros [post [= -> ->]]. split; [apply Ascii.eqb_refl | now exists post].
Qed.

Lemma includes_unfold s sub :
  includes s sub =
  if startsWith s sub then true
  else match s with
       | EmptyString => false
       | String _ s' => includes s' sub
       end.
Proof. now destruct s. Qed.

(** [includes] finds exactly the substrings. *)
Lemma includes_iff s sub :
  includes s sub = true <-> exists pre post, s = pre ++ sub ++ post.
Proof.
  induction s as [|c s IH]; rewrite includes_unfold;
    match goal with |- context [startsWith ?x sub] =>
      destruct (startsWith x sub) eqn:Hs end.
  - split; [intros _ | reflexivity].
    apply startsWith_iff in Hs. destruct Hs as [post Hs].
    now exists "", post.
  - split; [discriminate|].
    intros [pre [post H]]. destruct pre; simpl in H; [|discriminate].
    assert (Ht : startsWith "" sub = true) by (apply startsWith_iff; eauto).
    congruence.
  - split; [intros _ | reflexivity].
    apply startsWith_iff in Hs. destruct Hs as [post Hs].
    now exists "", post.
  - rewrite IH. split.
    + intros [pre [post ->]]. now exists (String c pre), post.
    + intros [pre [post H]]. destruct pre as [|c' pre]; simpl in H.
      * assert (Ht : startsWith (String c s) sub = true)
          by (apply startsWith_iff; eauto).
        congruence.
      * injection H as _ ->. eauto.
Qed.

Lemma asciiLower_app a b :
  asciiLower (a ++ b) = asciiLower a ++ asciiLower b.
Proof. induction a as [|c a IH]; simpl; [reflexivity | now rewrite IH]. Qed.

(** A substring stays one when both strings are lowered. *)
Lemma includes_asciiLower s sub :
  (exists pre post, s = pre ++ sub ++ post) ->
  includes (asciiLower s) (asciiLower sub) = true.
Proof.
  intros [pre [post ->]]. apply includes_iff.
  exists (asciiLower pre), (asciiLower post).
  now rewrite !asciiLower_app.
Qed.

Lemma asciiLower_truthy s : truthy (asciiLower s) = truthy s.
Proof. now destruct s. Qed.

Lemma isAscii_app a b : isAscii (a ++ b) = isAscii a && isAscii b.
Proof.
  induction a as [|c a IH]; simpl; [reflexivity|].
  now rewrite IH, andb_assoc.
Qed.

Lemma truthy_iff s : truthy s = true <-> s <> "".
Proof. destruct s; simpl; split; congruence. Qed.

End JsStringFacts.

(** The laws of [LowerCase] have a model: [asciiLower], which is the method
    on the ASCII strings of the examples. *)
#[export] Instance asciiLowerCase : LowerCase :=
  {| toLowerCase := JsString.asciiLower;
     toLowerCase_ascii := fun s _ => eq_refl;
     toLowerCase_truthy := JsStringFacts.asciiLower_truthy;
     toLowerCase_dash :=
       fun a b => JsStringFacts.asciiLower_app a (String "-" b) |}.

(** ** The method on strings around a [-], and on ASCII strings *)

Section LowerCaseFacts.
Context {L : LowerCase}.
Local Open Scope string_scope.

(** The lower-case form of a composite key, part by part. *)
Lemma toLowerCase_getKey (f : Filter) :
  toLowerCase (getKey f)
  = toLowerCase (FilterType_name (type f))
    ++ String "-" (toLowerCase (name f) ++ String "-" (toLowerCase (value f))).
Proof.
  unfold getKey, JsString.concat.
  change (String.append "-" (String.append (name f) (String.append "-" (value f))))
    with (String "-" (String.append (name f) (String "-" (value f)))).
  now rewrite !toLowerCase_dash.
Qed.


End LowerCaseFacts.

(** ** The store's operations, field by field *)

Section StoreFacts.
Implicit Types (s : SearchStore) (f : Filter).

Lemma selectFilter_registered f c r s :
  registeredFilters (selectFilter f c r s) = registeredFilters s.
Proof. reflexivity. Qed.

Lemma deselectFilter_registered f s :
  registeredFilters (deselectFilter f s) = registeredFilters s.
Proof. unfold deselectFilter. now destruct (match _ with Some _ => _ | None => _ end). Qed.

Lemma registerFilters_selected l s :
  selectedFilters (registerFilters l s) = selectedFilters s.
Proof.
  unfold registerFilters. revert s.
  induction l as [|x l IH]; intros s; simpl; [reflexivity|].
  rewrite IH. now destruct (negb _).
Qed.

Lemma registerFilters_cons x l s :
  registerFilters (x :: l) s =
  registerFilters l
    (if negb (JsMap.has (key x) (registeredFilters s))
     then with_registeredFilters
            (JsMap.set (key x) (keyed x) (registeredFilters s)) s
     else s).
Proof. reflexivity. Qed.

(** Registration keeps every entry the registry already has. *)
Lemma registerFilters_get_old l s k v :
  JsMap.get k (registeredFilters s) = Some v ->
  JsMap.get k (registeredFilters (registerFilters l s)) = Some v.
Proof.
  revert s. induction l as [|x l IH]; intros s Hk; [assumption|].
  rewrite registerFilters_cons. apply IH.
  destruct (JsMap.has (key x) (registeredFilters s)) eqn:Hx; simpl; [assumption|].
  rewrite JsMapFacts.get_set_ne; [assumption|].
  intros Heq. rewrite Heq in Hx.
  apply JsMapFacts.has_false_iff in Hx. congruence.
Qed.

Lemma registerFilters_has_old l s k :
  JsMap.has k (registeredFilters s) = true ->
  JsMap.has k (registeredFilters (registerFilters l s)) = true.
Proof.
  intros H. apply JsMapFacts.has_true_iff in H. destruct H as [v Hv].
  apply JsMapFacts.has_true_iff. exists v. now apply registerFilters_get_old.
Qed.

(** After registration every key of the list is registered. *)
Lemma registerFilters_has_new l s x :
  In x l -> JsMap.has (key x) (registeredFilters (registerFilters l s)) = true.
Proof.
  revert s. induction l as [|y l IH]; intros s Hin; [destruct Hin|].
  rewrite registerFilters_cons. destruct Hin as [->|Hin]; [|now apply IH].
  apply registerFilters_has_old.
  destruct (JsMap.has (key x) (registeredFilters s)) eqn:Hx; simpl; [assumption|].
  apply JsMapFacts.has_set_eq.
Qed.

(** Registering filters whose keys are all registered changes nothing. *)
Lemma registerFilters_noop l s :
  (forall x, In x l -> JsMap.has (key x) (registeredFilters s) = true) ->
  registerFilters l s = s.
Proof.
  revert s. induction l as [|y l IH]; intros s Hall; [reflexivity|].
  rewrite registerFilters_cons, (Hall y (or_introl eq_refl)). simpl.
  apply IH. intros x Hx. apply Hall. now right.
Qed.

End StoreFacts.

(** ** Deselecting *)

(** C4.  [deselectFilter f] leaves the selection without an entry under
    the key of [f] exactly when the entry there is not a protected one
    ([canBeRemoved] not [false]); on a protected entry the call returns the
    store as it was.  There is no failure to report: the function is total.
    Other keys and the registry are never touched. *)
Theorem deselectFilter_contract (f : Filter) (s : SearchStore) :
  (JsMap.get (getKey f) (selectedFilters (deselectFilter f s)) = None
   <-> ~ protected (getKey f) s)
  /\ (protected (getKey f) s -> deselectFilter f s = s)
  /\ (~ protected (getKey f) s ->
      selectedFilters (deselectFilter f s)
      = JsMap.delete (getKey f) (selectedFilters s))
  /\ (forall k, k <> getKey f ->
      JsMap.get k (selectedFilters (deselectFilter f s))
      = JsMap.get k (selectedFilters s))
  /\ registeredFilters (deselectFilter f s) = registeredFilters s.
Proof.
  assert (Hprot : protected (getKey f) s ->
                  exists e, JsMap.get (getKey f) (selectedFilters s) = Some e
                            /\ canBeRemoved e = false) by (intros H; exact H).
  unfold deselectFilter.
  destruct (JsMap.get (getKey f) (selectedFilters s)) as [e|] eqn:He.
  - destruct (canBeRemoved e) eqn:Hr; simpl.
    + assert (Hnp : ~ protected (getKey f) s).
      { intros H. destruct (Hprot H) as [e' [[= <-] Hf]]. congruence. }
      split; [split; [intros _; exact Hnp | intros _; apply JsMapFacts.get_delete_eq]|].
      split; [intros H; now destruct (Hnp H)|].
      split; [reflexivity|].
      split; [|reflexivity].
      intros k Hk. apply JsMapFacts.get_delete_ne. congruence.
    + assert (Hp : protected (getKey f) s) by (exists e; rewrite He; auto).
      split; [split; [rewrite He; discriminate | intros Hn; now destruct (Hn Hp)]|].
      split; [reflexivity|].
      split; [intros Hn; now destruct (Hn Hp)|].
      split; reflexivity.
  - simpl.
    assert (Hnp : ~ protected (getKey f) s).
    { intros H. destruct (Hprot H) as [e' [He' _]]. discriminate. }
    split; [split; [intros _; exact Hnp | intros _; apply JsMapFacts.get_delete_eq]|].
    split; [intros H; now destruct (Hnp H)|].
    split; [reflexivity|].
    split; [|reflexivity].
    intros k Hk. apply JsMapFacts.get_delete_ne. congruence.
Qed.

(** The contract at a protected entry and at a removable one. *)
Lemma deselectFilter_contract_witness :
  deselectFilter locationHome (selectFilter locationHome true false initialStore)
  = selectFilter locationHome true false initialStore
  /\ selectedFilters
       (deselectFilter tagWork (selectFilter tagWork true true initialStore))
     = [].
Proof.
  split.
  - apply (proj1 (proj2 (deselectFilter_contract locationHome
                           (selectFilter locationHome true false initialStore)))).
    eexists. split; reflexivity.
  - rewrite (proj1 (proj2 (proj2 (deselectFilter_contract tagWork
                                    (selectFilter tagWork true true initialStore))))).
    + reflexivity.
    + intros [e [He Hr]]. vm_compute in He. injection He as <-. discriminate.
Defined.

(** ** Registration *)

(** C8.  Running the registration effect of [useSearchFilter] a second time
    gives the store of the first run, and a run never changes an entry the
    registry already holds (nor the selection). *)
Theorem registration_idempotent (t : FilterType)
    (filterArgs : option (list FilterArgs)) (s : SearchStore) :
  useSearchFilter_effect t filterArgs (useSearchFilter_effect t filterArgs s)
  = useSearchFilter_effect t filterArgs s
  /\ (forall k v, JsMap.get k (registeredFilters s) = Some v ->
        JsMap.get k (registeredFilters (useSearchFilter_effect t filterArgs s))
        = Some v)
  /\ selectedFilters (useSearchFilter_effect t filterArgs s) = selectedFilters s.
Proof.
  unfold useSearchFilter_effect. split; [|split].
  - apply registerFilters_noop. intros x Hx.
    now apply registerFilters_has_new.
  - intros k v. apply registerFilters_get_old.
  - apply registerFilters_selected.
Qed.


(** ** The composite key *)

(** C10.  [getKey] is not injective: [dashInName] and [dashInValue] have
    the same type, different names and values, and one key.  Selecting the
    second after the first leaves the second alone under that key, and no
    registry holds each of them under its key. *)
Theorem getKey_collision :
  type dashInName = type dashInValue
  /\ name dashInName <> name dashInValue
  /\ value dashInName <> value dashInValue
  /\ getKey dashInName = getKey dashInValue
  /\ (forall c1 r1 c2 r2 s,
        JsMap.get (getKey dashInName)
          (selectedFilters
             (selectFilter dashInValue c2 r2 (selectFilter dashInName c1 r1 s)))
        = Some (mkSet dashInValue c2 r2))
  /\ (forall registry : JsMap.t Filter,
        ~ (JsMap.get (getKey dashInName) registry = Some dashInName
           /\ JsMap.get (getKey dashInValue) registry = Some dashInValue)).
Proof.
  split; [reflexivity|].
  split; [discriminate|].
  split; [discriminate|].
  split; [reflexivity|].
  split.
  - intros c1 r1 c2 r2 s. unfold selectFilter. simpl selectedFilters.
    change (getKey dashInName) with (getKey dashInValue).
    apply JsMapFacts.get_set_eq.
  - intros registry [H1 H2].
    change (getKey dashInName) with (getKey dashInValue) in H1.
    rewrite H1 in H2. discriminate.
Qed.

(** ** The loops over saved and fixed filters *)

Section Loops.
Implicit Types (s : SearchStore).

Lemma loadSearch_loop_selected l s :
  selectedFilters (fold_left loadSearch_step l s)
  = setAll (map (fun sf => selectedEntry (savedToFilter sf) true true) l)
      (selectedFilters s).
Proof.
  revert s. induction l as [|sf l IH]; intros s; simpl; [reflexivity|].
  now rewrite IH.
Qed.

Lemma loadSearch_loop_registered l s :
  registeredFilters (fold_left loadSearch_step l s)
  = setAll (map (fun sf => (getKey (savedToFilter sf), savedToFilter sf)) l)
      (registeredFilters s).
Proof.
  revert s. induction l as [|sf l IH]; intros s; simpl; [reflexivity|].
  now rewrite IH.
Qed.

Lemma loadSearch_loop_searchQuery l s :
  searchQuery (fold_left loadSearch_step l s) = searchQuery s.
Proof.
  revert s. induction l as [|sf l IH]; intros s; simpl; [reflexivity|].
  now rewrite IH.
Qed.

Lemma fixedFilters_loop_selected l s :
  selectedFilters (fold_left fixedFilter_step l s)
  = setAll (map (fun f => selectedEntry (fillIcon f) true false) (named l))
      (selectedFilters s).
Proof.
  unfold named. revert s.
  induction l as [|f l IH]; intros s; simpl; [reflexivity|].
  rewrite IH. unfold fixedFilter_step.
  now destruct (JsString.truthy (name f)).
Qed.

Lemma fixedFilters_loop_searchQuery l s :
  searchQuery (fold_left fixedFilter_step l s) = searchQuery s.
Proof.
  revert s. induction l as [|f l IH]; intros s; simpl; [reflexivity|].
  rewrite IH. unfold fixedFilter_step.
  now destruct (JsString.truthy (name f)).
Qed.

(** The loop over the fixed filters only adds to the registry. *)
Lemma fixedFilters_loop_registered_mono l s k :
  JsMap.has k (registeredFilters s) = true ->
  JsMap.has k (registeredFilters (fold_left fixedFilter_step l s)) = true.
Proof.
  revert s. induction l as [|f l IH]; intros s Hk; simpl; [assumption|].
  apply IH. unfold fixedFilter_step.
  destruct (JsString.truthy (name f)); [|assumption].
  simpl. now apply JsMapFacts.has_set_mono.
Qed.

Lemma getKey_fillIcon f : getKey (fillIcon f) = getKey f.
Proof. unfold fillIcon. now destruct (negb _). Qed.

(** [fillIcon] writes the name over a missing or empty icon and keeps
    any other icon. *)
Lemma fillIcon_spec f :
  type (fillIcon f) = type f /\ name (fillIcon f) = name f
  /\ value (fillIcon f) = value f
  /\ (JsString.truthy_opt (icon f) = false -> icon (fillIcon f) = Some (name f))
  /\ (JsString.truthy_opt (icon f) = true -> fillIcon f = f).
Proof.
  unfold fillIcon.
  destruct (JsString.truthy_opt (icon f)) eqn:Ht; simpl; repeat split; auto;
    discriminate.
Qed.

End Loops.

(** ** Searching the registry *)

Section Search.
Context {L : LowerCase}.
Implicit Types (s : SearchStore) (q : string).

Lemma searchRegisteredFilters_nonempty q s :
  q <> ""%string ->
  searchRegisteredFilters q s
  = flat_map
      (fun k =>
         match JsMap.get k (registeredFilters s) with
         | Some f => [ {| keyed := f; key := k |} ]
         | None => []
         end)
      (filter (fun k => JsString.includes (toLowerCase k) (toLowerCase q))
              (JsMap.keys (registeredFilters s))).
Proof.
  intros Hq. unfold searchRegisteredFilters.
  apply JsStringFacts.truthy_iff in Hq. now rewrite Hq.
Qed.

(** The lookup inside [searchRegisteredFilters] never misses: the result
    has one filter per matching key, in the order of the registry. *)
Lemma searchRegisteredFilters_keys q s :
  q <> ""%string ->
  map key (searchRegisteredFilters q s)
  = filter (fun k => JsString.includes (toLowerCase k) (toLowerCase q))
           (JsMap.keys (registeredFilters s)).
Proof.
  intros Hq. rewrite searchRegisteredFilters_nonempty by assumption.
  assert (Hall : forall k,
             In k (filter (fun k => JsString.includes (toLowerCase k) (toLowerCase q))
                          (JsMap.keys (registeredFilters s))) ->
             JsMap.has k (registeredFilters s) = true).
  { intros k Hk. apply filter_In in Hk. now apply JsMapFacts.in_keys_iff. }
  induction (filter _ (JsMap.keys (registeredFilters s))) as [|k l IH];
    [reflexivity|].
  simpl. rewrite map_app, IH by (intros; apply Hall; now right).
  destruct (proj1 (JsMapFacts.has_true_iff _ _) (Hall k (or_introl eq_refl)))
    as [v ->].
  reflexivity.
Qed.

(** What the search returns, for a query that is not empty. *)
Lemma searchRegisteredFilters_In q kf s :
  q <> ""%string ->
  (In kf (searchRegisteredFilters q s)
   <-> JsMap.get (key kf) (registeredFilters s) = Some (keyed kf)
       /\ JsString.includes (toLowerCase (key kf)) (toLowerCase q) = true).
Proof.
  intros Hq. rewrite searchRegisteredFilters_nonempty by assumption.
  rewrite in_flat_map. split.
  - intros [k [Hk Hin]]. apply filter_In in Hk. destruct Hk as [_ Hinc].
    destruct (JsMap.get k (registeredFilters s)) as [f|] eqn:Hg; [|destruct Hin].
    destruct Hin as [<-|[]]. simpl. auto.
  - intros [Hg Hinc]. exists (key kf). split.
    + apply filter_In. split; [|assumption].
      apply JsMapFacts.in_keys_iff, JsMapFacts.has_true_iff. eauto.
    + rewrite Hg. left. now destruct kf.
Qed.

End Search.

(** *** Where the key of the registry is the composite key *)

Section RegistryKeys.
Implicit Types (s : SearchStore).




End RegistryKeys.




(** ** Loading a saved search *)

(** C9, as the claim has it, fails: the selection has one entry per key, so
    of two saved filters with one key only the later is selected.  The saved
    search [savedTwice] has the tag [Work] under the icon "Folder" and under
    the icon "Star"; after the load the first is not in the selection. *)
Lemma loadSearch_drops_repeated_key :
  In (savedToFilter savedFolder) (savedFilters savedTwice)
  /\ ~ In (savedToFilter savedFolder)
         (map (fun e : SetFilter => filter_of e)
            (JsMap.values (selectedFilters (loadSearch [savedTwice] 9 initialStore))))
  /\ JsMap.values (selectedFilters (loadSearch [savedTwice] 9 initialStore))
     = [ mkSet (savedToFilter savedStar) true true ].
Proof.
  split; [now left|]. split; [|reflexivity].
  intros [H|[]]. discriminate H.
Qed.

(** C9, amended.  When [loadSearch] finds the search, the selection
    afterwards is the empty selection with the search's filters selected one
    after the other with [condition] and [canBeRemoved] true.  Its keys are
    exactly the keys of those filters, and under a key stands the last saved
    filter with that key; when the keys of the saved filters are all
    different, the selection is exactly those filters in their order.  Each of
    them is registered under its key, and a key of no saved filter is absent,
    whatever was selected before.  The Filter built from a saved one takes
    its type, name and value, keeps an icon that is there and has the empty
    string for a missing one.  When no search has the id the store is
    returned as it was. *)
Theorem loadSearch_replaces (searches : list SavedSearch) (i : Z) (s : SearchStore) :
  (forall search, findSearch searches i = Some search ->
     selectedFilters (loadSearch searches i s)
     = setAll (map (fun f => selectedEntry f true true) (savedFilters search))
         JsMap.empty
     /\ (forall k, JsMap.has k (selectedFilters (loadSearch searches i s)) = true
                   <-> exists f, In f (savedFilters search) /\ getKey f = k)
     /\ (forall k e, JsMap.get k (selectedFilters (loadSearch searches i s)) = Some e ->
           In (filter_of e) (savedFilters search) /\ getKey e = k
           /\ condition e = true /\ canBeRemoved e = true)
     /\ (forall f, In f (savedFilters search) ->
           JsMap.has (getKey f) (registeredFilters (loadSearch searches i s)) = true)
     /\ (forall k, (forall f, In f (savedFilters search) -> getKey f <> k) ->
           JsMap.get k (selectedFilters (loadSearch searches i s)) = None)
     /\ (forall k,
           JsMap.get k (selectedFilters (loadSearch searches i s))
           = option_map (fun f => mkSet f true true)
               (find (fun f => String.eqb k (getKey f)) (rev (savedFilters search))))
     /\ (NoDup (map getKey (savedFilters search)) ->
         JsMap.values (selectedFilters (loadSearch searches i s))
         = map (fun f => mkSet f true true) (savedFilters search)))
  /\ (findSearch searches i = None -> loadSearch searches i s = s)
  /\ (forall sf,
        type (savedToFilter sf) = filter_type sf
        /\ name (savedToFilter sf) = saved_name sf
        /\ value (savedToFilter sf) = saved_value sf
        /\ icon (savedToFilter sf)
           = Some (match saved_icon sf with
                   | Some i => i
                   | None => ""%string
                   end)).
Proof.
  split; [|split].
  - intros search Hfind. unfold loadSearch, findSearch in *. rewrite Hfind.
    rewrite loadSearch_loop_selected, loadSearch_loop_registered.
    unfold savedFilters. rewrite map_map. simpl selectedFilters.
    simpl registeredFilters. unfold JsMap.clear, JsMap.empty.
    set (l := match filters search with Some l => l | None => [] end).
    assert (Hkeys : forall k,
              JsMap.has k
                (setAll (map (fun sf => selectedEntry (savedToFilter sf) true true) l) [])
              = true
              <-> exists f, In f (map savedToFilter l) /\ getKey f = k).
    { intros k. rewrite has_setAll. split.
      - intros [[v Hv]|H]; [|discriminate].
        apply in_map_iff in Hv. destruct Hv as [sf [[= <- <-] Hin]].
        exists (savedToFilter sf). split; [now apply in_map | reflexivity].
      - intros [f [Hin <-]]. left. apply in_map_iff in Hin.
        destruct Hin as [sf [<- Hin]].
        exists (snd (selectedEntry (savedToFilter sf) true true)).
        apply in_map_iff. exists sf. split; [reflexivity | assumption]. }
    split; [reflexivity|]. split; [exact Hkeys|].
    split; [|split; [|split; [|split]]].
    + intros k e He. apply get_setAll_inv in He.
      destruct He as [He|He]; [|discriminate].
      apply in_map_iff in He. destruct He as [sf [[= <- <-] Hin]]. simpl.
      split; [now apply in_map | auto].
    + intros f Hin. apply has_setAll. left.
      apply in_map_iff in Hin. destruct Hin as [sf [<- Hin]].
      exists (savedToFilter sf). apply in_map_iff. exists sf. auto.
    + intros k Hk. apply JsMapFacts.has_false_iff.
      destruct (JsMap.has k _) eqn:Hh; [|reflexivity].
      apply Hkeys in Hh. destruct Hh as [f [Hin Hf]]. now destruct (Hk f Hin).
    + intros k. rewrite get_setAll.
      rewrite <- (map_map savedToFilter (fun f => selectedEntry f true true)).
      rewrite <- map_rev.
      unfold selectedEntry.
      rewrite (get_map_entries getKey (fun f => mkSet f true true)).
      now destruct (find _ (rev (map savedToFilter l))).
    + intros Hnd.
      rewrite <- (map_map savedToFilter (fun f => selectedEntry f true true)).
      rewrite setAll_fresh.
      * cbn [app]. unfold JsMap.values. rewrite map_map. reflexivity.
      * rewrite map_map. exact Hnd.
      * reflexivity.
  - intros Hfind. unfold loadSearch, findSearch in *. now rewrite Hfind.
  - intros sf. split; [reflexivity|]. split; [reflexivity|]. split; [reflexivity|].
    simpl. unfold JsString.or_else.
    destruct (saved_icon sf) as [ic|]; [|reflexivity].
    now destruct ic.
Qed.

(** Loading a search of two filters with icons over a selection of
    [locationHome], and loading a search that is not there. *)
Lemma loadSearch_replaces_witness :
  JsMap.values
    (selectedFilters
       (loadSearch [savedPair] 7 (selectFilter locationHome true true initialStore)))
  = [ mkSet {| args := {| value := "3"; name := "Work"; icon := Some "Star"%string |};
               type := Tag |} true true;
      mkSet {| args := {| value := "2"; name := "Home"; icon := Some ""%string |};
               type := Location |} true true ]
  /\ loadSearch [savedWork] 8 (selectFilter locationHome true true initialStore)
     = selectFilter locationHome true true initialStore.
Proof.
  split.
  - rewrite (proj2 (proj2 (proj2 (proj2 (proj2 (proj2
               (proj1 (loadSearch_replaces [savedPair] 7
                         (selectFilter locationHome true true initialStore))
                  savedPair eq_refl))))))).
    + reflexivity.
    + repeat constructor; simpl; intuition discriminate.
  - apply (proj1 (proj2 (loadSearch_replaces [savedWork] 8
                           (selectFilter locationHome true true initialStore)))).
    reflexivity.
Defined.

(** ** The fixed filters *)

(** C2, as the claim has it, fails: the mount effect resets the selection
    and the query text, not the registry.  A filter registered before the
    effect is still registered after it. *)
Lemma fixedFilters_registry_not_cleared :
  let s := useSearchFilter_effect Tag (Some [args tagWork]) initialStore in
  JsMap.get "Tag-Work-3" (registeredFilters (useSearchFilters_effect (Some []) s))
  = Some tagWork
  /\ registeredFilters (useSearchFilters_effect (Some [locationHome]) s)
     <> registeredFilters (useSearchFilters_effect (Some [locationHome]) initialStore).
Proof. split; [reflexivity | discriminate]. Qed.

(** C2, amended.  The mount effect clears the selection and the query text
    and keeps every key of the registry.  Then the selection is the fixed
    filters that have a name, each with its icon filled by [fillIcon],
    selected in order with [condition] true and [canBeRemoved] false; in its
    turn of the loop such a filter is put in the registry and selected under
    its key.  Without a list the effect is [resetSearchStore]. *)
Theorem fixedFilters_postcondition (fixedFilters : list Filter) (s : SearchStore) :
  selectedFilters (useSearchFilters_effect (Some fixedFilters) s)
  = setAll (map (fun f => selectedEntry (fillIcon f) true false) (named fixedFilters))
      JsMap.empty
  /\ (forall k,
        JsMap.has k (selectedFilters (useSearchFilters_effect (Some fixedFilters) s)) = true
        <-> exists f, In f (named fixedFilters) /\ getKey f = k)
  /\ (forall k e,
        JsMap.get k (selectedFilters (useSearchFilters_effect (Some fixedFilters) s))
        = Some e ->
        condition e = true /\ canBeRemoved e = false
        /\ exists f, In f (named fixedFilters) /\ filter_of e = fillIcon f
                     /\ getKey f = k)
  /\ (forall k, JsMap.has k (registeredFilters s) = true ->
        JsMap.has k (registeredFilters (useSearchFilters_effect (Some fixedFilters) s))
        = true)
  /\ searchQuery (useSearchFilters_effect (Some fixedFilters) s) = None
  /\ (forall s0 (f : Filter), name f <> ""%string ->
        (exists k, JsMap.get k (registeredFilters (fixedFilter_step s0 f))
                   = Some (fillIcon f))
        /\ JsMap.get (getKey f) (selectedFilters (fixedFilter_step s0 f))
           = Some (mkSet (fillIcon f) true false))
  /\ (forall s0 (f : Filter), name f = ""%string -> fixedFilter_step s0 f = s0)
  /\ (forall f : Filter,
        (icon f = None \/ icon f = Some ""%string ->
         icon (fillIcon f) = Some (name f))
        /\ (JsString.truthy_opt (icon f) = true -> fillIcon f = f))
  /\ useSearchFilters_effect None s = resetSearchStore s.
Proof.
  unfold useSearchFilters_effect.
  rewrite fixedFilters_loop_selected, fixedFilters_loop_searchQuery.
  simpl selectedFilters. unfold JsMap.clear, JsMap.empty.
  assert (Hkeys : forall k,
            JsMap.has k
              (setAll (map (fun f => selectedEntry (fillIcon f) true false)
                         (named fixedFilters)) [])
            = true
            <-> exists f, In f (named fixedFilters) /\ getKey f = k).
  { intros k. rewrite has_setAll. split.
    - intros [[v Hv]|H]; [|discriminate].
      apply in_map_iff in Hv. destruct Hv as [f [[= <- <-] Hin]].
      exists f. split; [assumption | symmetry; apply getKey_fillIcon].
    - intros [f [Hin <-]]. left.
      exists (snd (selectedEntry (fillIcon f) true false)).
      apply in_map_iff. exists f. split; [|assumption].
      unfold selectedEntry. simpl. now rewrite getKey_fillIcon. }
  split; [reflexivity|]. split; [exact Hkeys|].
  split; [|split; [|split; [|split; [|split; [|split]]]]].
  - intros k e He. apply get_setAll_inv in He.
    destruct He as [He|He]; [|discriminate].
    apply in_map_iff in He. destruct He as [f [[= <- <-] Hin]]. simpl.
    split; [reflexivity|]. split; [reflexivity|].
    exists f. split; [assumption|]. split; [reflexivity|].
    symmetry. apply getKey_fillIcon.
  - intros k Hk. now apply fixedFilters_loop_registered_mono.
  - reflexivity.
  - intros s0 f Hn. apply JsStringFacts.truthy_iff in Hn.
    unfold fixedFilter_step. rewrite Hn. split.
    + exists (value (fillIcon f)). simpl. apply JsMapFacts.get_set_eq.
    + simpl. rewrite <- (getKey_fillIcon f). apply JsMapFacts.get_set_eq.
  - intros s0 f Hn. unfold fixedFilter_step. now rewrite Hn.
  - intros f. split.
    + intros Hi. apply fillIcon_spec. now destruct Hi as [-> | ->].
    + apply fillIcon_spec.
  - reflexivity.
Qed.

(** The effect on [locationHome], over a store that has a registered and
    selected [tagWork]. *)
Lemma fixedFilters_postcondition_witness :
  let s := selectFilter tagWork true true
             (useSearchFilter_effect Tag (Some [args tagWork]) initialStore) in
  (canBeRemoved
     {| filter_of := fillIcon locationHome; condition := true; canBeRemoved := false |}
   = false)
  /\ JsMap.has "Tag-Work-3"
       (registeredFilters (useSearchFilters_effect (Some [locationHome]) s)) = true
  /\ JsMap.get (getKey locationHome)
       (selectedFilters (fixedFilter_step s locationHome))
     = Some (mkSet (fillIcon locationHome) true false).
Proof.
  intros s. split; [reflexivity|]. split.
  - apply (proj1 (proj2 (proj2 (proj2
             (fixedFilters_postcondition [locationHome] s))))).
    reflexivity.
  - apply (proj1 (proj2 (proj2 (proj2 (proj2 (proj2
             (fixedFilters_postcondition [locationHome] s)))))) s locationHome).
    discriminate.
Defined.

(** ** The selection inside the registry *)

Section Containment.
Implicit Types (s : SearchStore).

Lemma get_delete_inv {V : Type} k k0 (v : V) (m : JsMap.t V) :
  JsMap.get k (JsMap.delete k0 m) = Some v -> JsMap.get k m = Some v.
Proof.
  destruct (String.eqb_spec k0 k) as [->|Hne].
  - now rewrite JsMapFacts.get_delete_eq.
  - now rewrite JsMapFacts.get_delete_ne.
Qed.

Lemma selectFilter_contained f c r s :
  JsMap.has (getKey f) (registeredFilters s) = true ->
  contained s -> contained (selectFilter f c r s).
Proof.
  intros Hf Hs k. unfold selectFilter. simpl.
  destruct (String.eqb_spec (getKey f) k) as [<-|Hne]; [auto|].
  rewrite JsMapFacts.has_set_ne by assumption. apply Hs.
Qed.

Lemma deselectFilter_contained f s :
  contained s -> contained (deselectFilter f s).
Proof.
  intros Hs k. rewrite deselectFilter_registered. intros Hk. apply Hs.
  unfold deselectFilter in Hk.
  destruct (match JsMap.get (getKey f) (selectedFilters s) with
            | Some e => canBeRemoved e
            | None => true
            end); [|assumption].
  simpl in Hk. apply JsMapFacts.has_true_iff in Hk. destruct Hk as [v Hv].
  apply get_delete_inv in Hv. apply JsMapFacts.has_true_iff. eauto.
Qed.

Lemma resetSearchStore_contained s : contained (resetSearchStore s).
Proof. intros k Hk. discriminate. Qed.

Lemma registerFilters_contained l s :
  contained s -> contained (registerFilters l s).
Proof.
  intros Hs k. rewrite registerFilters_selected. intros Hk.
  apply registerFilters_has_old. now apply Hs.
Qed.

(** What [loadSearch] selects it has registered, under the same key. *)
Lemma loadSearch_found_contained searches i s :
  findSearch searches i <> None -> contained (loadSearch searches i s).
Proof.
  unfold loadSearch, findSearch.
  destruct (find _ searches) as [search|]; [intros _ | congruence].
  intros k. rewrite loadSearch_loop_selected, loadSearch_loop_registered.
  rewrite !has_setAll. intros [[v Hv]|H]; [|discriminate]. left.
  apply in_map_iff in Hv. destruct Hv as [sf [[= <- <-] Hin]].
  exists (savedToFilter sf). apply in_map_iff. exists sf. auto.
Qed.

Lemma loadSearch_contained searches i s :
  contained s -> contained (loadSearch searches i s).
Proof.
  intros Hs. destruct (findSearch searches i) eqn:Hf.
  - apply loadSearch_found_contained. congruence.
  - unfold loadSearch, findSearch in *. now rewrite Hf.
Qed.

Lemma step_contained s op :
  contained s -> allowed s op -> contained (step s op).
Proof.
  intros Hs Hop. destruct op; simpl in *.
  - now apply selectFilter_contained.
  - now apply deselectFilter_contained.
  - apply resetSearchStore_contained.
  - now apply registerFilters_contained.
  - destruct Hop.
  - now apply loadSearch_contained.
Qed.

End Containment.

(** C1, as the claim has it, fails: [selectFilter] writes the selection
    only, so a filter selected without being registered is in the selection
    and not in the registry; and the fixed filter of the mount effect is
    selected under its key and put in the registry under its value. *)
Lemma selection_outside_registry :
  ~ contained (selectFilter tagWork true true initialStore)
  /\ ~ contained (useSearchFilters_effect (Some [locationHome]) initialStore).
Proof.
  split; intros H.
  - specialize (H (getKey tagWork) eq_refl). discriminate.
  - specialize (H (getKey locationHome) eq_refl). discriminate.
Qed.

(** C1, amended.  The selection stays inside the registry along every
    sequence of [selectFilter] on registered filters, [deselectFilter],
    [resetSearchStore], the registration effect and [loadSearch]. *)
Theorem containment_preserved (ops : list StoreOp) (s : SearchStore) :
  contained s -> guarded s ops -> contained (run ops s).
Proof.
  unfold run. revert s. induction ops as [|op ops IH]; intros s Hs Hg.
  - exact Hs.
  - destruct Hg as [Hop Hg]. simpl. apply IH; [|exact Hg].
    now apply step_contained.
Qed.

(** A run from the initial store: register, select, load, deselect, reset. *)
Lemma containment_preserved_witness :
  contained
    (run [ OpRegister Tag (Some [args tagWork]);
           OpSelect tagWork true true;
           OpLoadSearch [savedWork] 7;
           OpDeselect tagWork;
           OpSelect tagWork false true;
           OpResetStore ]
       initialStore).
Proof.
  apply containment_preserved.
  - intros k Hk. discriminate.
  - simpl. repeat split.
Defined.

(** ** Protected entries *)

Section Protection.
Implicit Types (s : SearchStore).

Lemma deselectFilter_keeps_protected f s k e :
  JsMap.get k (selectedFilters s) = Some e -> canBeRemoved e = false ->
  JsMap.get k (selectedFilters (deselectFilter f s)) = Some e.
Proof.
  intros He Hr. unfold deselectFilter.
  destruct (String.eqb_spec (getKey f) k) as [->|Hne].
  - now rewrite He, Hr.
  - destruct (match JsMap.get (getKey f) (selectedFilters s) with
              | Some e => canBeRemoved e
              | None => true
              end); [|assumption].
    simpl. now rewrite JsMapFacts.get_delete_ne.
Qed.

Lemma loadSearch_unknown searches i s :
  findSearch searches i = None -> loadSearch searches i s = s.
Proof. unfold loadSearch, findSearch. now intros ->. Qed.

Lemma step_keeps_protected op s k e :
  keepsProtected op ->
  JsMap.get k (selectedFilters s) = Some e -> canBeRemoved e = false ->
  JsMap.get k (selectedFilters (step s op)) = Some e.
Proof.
  intros Hop He Hr. destruct op; simpl in *; try contradiction.
  - now apply deselectFilter_keeps_protected.
  - now rewrite loadSearch_unknown.
Qed.

(** After a load that finds its search every entry is removable. *)
Lemma loadSearch_found_removable searches i s k e :
  findSearch searches i <> None ->
  JsMap.get k (selectedFilters (loadSearch searches i s)) = Some e ->
  canBeRemoved e = true.
Proof.
  unfold loadSearch, findSearch.
  destruct (find _ searches) as [search|]; [intros _ | congruence].
  rewrite loadSearch_loop_selected. intros He.
  apply get_setAll_inv in He. destruct He as [He|He]; [|discriminate].
  apply in_map_iff in He. now destruct He as [sf [[= <- <-] _]].
Qed.

End Protection.

(** C3, as the claim has it, fails: [resetSearchStore] and a [loadSearch]
    that finds its search clear the selection, protected entries too. *)
Lemma protected_entry_cleared :
  protected (getKey locationHome)
    (useSearchFilters_effect (Some [locationHome]) initialStore)
  /\ ~ protected (getKey locationHome)
         (resetSearchStore
            (useSearchFilters_effect (Some [locationHome]) initialStore))
  /\ ~ protected (getKey locationHome)
         (loadSearch [savedWork] 7
            (useSearchFilters_effect (Some [locationHome]) initialStore)).
Proof.
  split; [|split].
  - eexists. split; reflexivity.
  - intros [e [He _]]. discriminate.
  - intros [e [He _]]. discriminate.
Qed.

(** C3, amended.  A protected entry stays in the selection, as it is, along
    every sequence of [deselectFilter] calls and of [loadSearch] calls whose
    id is not among the fetched searches.  [resetSearchStore] leaves no
    protected entry, and neither does a [loadSearch] that finds its search. *)
Theorem protected_persistence (s : SearchStore) :
  (forall k e ops,
      JsMap.get k (selectedFilters s) = Some e -> canBeRemoved e = false ->
      Forall keepsProtected ops ->
      JsMap.get k (selectedFilters (run ops s)) = Some e)
  /\ (forall k, ~ protected k (resetSearchStore s))
  /\ (forall searches i k,
        findSearch searches i <> None -> ~ protected k (loadSearch searches i s)).
Proof.
  split; [|split].
  - intros k e ops. unfold run. revert s.
    induction ops as [|op ops IH]; intros s He Hr Hops; [assumption|].
    inversion Hops as [|? ? Hop Hrest]; subst. simpl.
    apply IH; [|assumption|assumption].
    now apply step_keeps_protected.
  - intros k [e [He _]]. discriminate.
  - intros searches i k Hf [e [He Hr]].
    apply loadSearch_found_removable in He; [congruence | assumption].
Qed.

(** The fixed [locationHome] survives deselections and an unknown load. *)
Lemma protected_persistence_witness :
  JsMap.get (getKey locationHome)
    (selectedFilters
       (run [ OpDeselect locationHome; OpLoadSearch [savedWork] 8;
              OpDeselect tagWork; OpDeselect locationHome ]
          (useSearchFilters_effect (Some [locationHome]) initialStore)))
  = Some (mkSet (fillIcon locationHome) true false).
Proof.
  apply (proj1 (protected_persistence
                  (useSearchFilters_effect (Some [locationHome]) initialStore))).
  - reflexivity.
  - reflexivity.
  - repeat constructor.
Defined.

(** ** The derived query *)

Section QueryFacts.
Context {E : Externals}.
Implicit Types (fs : list SetFilter) (f : SetFilter).

(** The fold of [mapFiltersToQueryParams] field by field: each field is
    accumulated over the filters of its own type, in their order. *)
Lemma fold_applyFilter fs q o :
  fold_left applyFilter fs (q, o)
  = ({| locations :=
          accumulate (fun f => parseInt (value f)) (ofType Location fs) (locations q);
        hidden := hiddenAfter (ofType Hidden fs) (hidden q);
        object := object q |},
     {| tags := accumulate (fun f => parseInt (value f)) (ofType Tag fs) (tags o);
        kind := accumulate (fun f => parseInt (value f)) (ofType Kind fs) (kind o);
        category := accumulate (fun f => value f) (ofType Category fs) (category o) |}).
Proof.
  revert q o. induction fs as [|f fs IH]; intros q o.
  - now destruct q, o.
  - cbn [fold_left]. unfold applyFilter at 2, ofType.
    cbn [filter]. destruct (type f); cbn [FilterType_eqb]; rewrite IH; reflexivity.
Qed.

Lemma mapFiltersToQueryParams_fields fs :
  mapFiltersToQueryParams fs
  = let o := {| tags := accumulate (fun f => parseInt (value f)) (ofType Tag fs) None;
                kind := accumulate (fun f => parseInt (value f)) (ofType Kind fs) None;
                category := accumulate (fun f => value f) (ofType Category fs) None |} in
    {| queryParams :=
         {| locations :=
              accumulate (fun f => parseInt (value f)) (ofType Location fs) None;
            hidden := hiddenAfter (ofType Hidden fs) None;
            object := if (0 <? objectKeysLength o)%nat then Some o else None |};
       objectFilters := o |}.
Proof.
  unfold mapFiltersToQueryParams. rewrite fold_applyFilter. cbv zeta.
  cbn [locations hidden object tags kind category emptyQueryParams emptyObjectFilters].
  now destruct (0 <? objectKeysLength _)%nat.
Qed.

Lemma accumulate_some {T : Type} (read : SetFilter -> T) fs x :
  accumulate read fs (Some x) <> None.
Proof.
  revert x. induction fs as [|f fs IH]; intros x; simpl; [discriminate|].
  apply IH.
Qed.

Lemma accumulate_none {T : Type} (read : SetFilter -> T) fs :
  accumulate read fs None = None <-> fs = [].
Proof.
  destruct fs as [|f fs]; simpl.
  - split; reflexivity.
  - split; [|discriminate]. intros H. now apply accumulate_some in H.
Qed.

Lemma ofType_nil_iff t fs :
  ofType t fs = [] <-> forall f, In f fs -> FilterType_eqb (type f) t = false.
Proof.
  unfold ofType. induction fs as [|f fs IH]; simpl.
  - split; [intros _ f [] | reflexivity].
  - destruct (FilterType_eqb (type f) t) eqn:Ht.
    + split; [discriminate|]. intros H.
      specialize (H f (or_introl eq_refl)). congruence.
    + rewrite IH. split.
      * intros H g [<-|Hg]; auto.
      * intros H g Hg. apply H. now right.
Qed.

Lemma ofType_app t fs gs : ofType t (fs ++ gs) = ofType t fs ++ ofType t gs.
Proof. apply filter_app. Qed.

Lemma hiddenAfter_last fs f acc :
  hiddenAfter (fs ++ [f]) acc = Some (String.eqb (value f) "true").
Proof. unfold hiddenAfter. now rewrite fold_left_app. Qed.

Lemma objectKeysLength_zero (o : ObjectFilterArgs) :
  objectKeysLength o = 0 <-> tags o = None /\ kind o = None /\ category o = None.
Proof.
  unfold objectKeysLength.
  destruct (tags o), (kind o), (category o); simpl;
    split; try discriminate; try tauto;
    intros [H1 [H2 H3]]; discriminate.
Qed.

Lemma writesObject_false f :
  writesObject f = false
  <-> FilterType_eqb (type f) Tag = false
      /\ FilterType_eqb (type f) Kind = false
      /\ FilterType_eqb (type f) Category = false.
Proof. unfold writesObject. destruct (type f); simpl; intuition congruence. Qed.

End QueryFacts.

(** C6.  In the result of [mapFiltersToQueryParams], [hidden] is absent
    without a Hidden filter; with one, the last Hidden filter of the list
    gives it, true exactly when that filter's value is the string ["true"].
    [object] is the accumulated object filters exactly when they have a
    populated field, and is absent otherwise; they have one exactly when the
    list has a Tag, Kind or Category filter. *)
Theorem mapFiltersToQueryParams_shape {E : Externals} (fs : list SetFilter) :
  (ofType Hidden fs = [] -> hidden (queryParams (mapFiltersToQueryParams fs)) = None)
  /\ (forall pre (f : SetFilter) post,
        fs = pre ++ f :: post -> type f = Hidden -> ofType Hidden post = [] ->
        hidden (queryParams (mapFiltersToQueryParams fs))
        = Some (String.eqb (value f) "true")
        /\ (hidden (queryParams (mapFiltersToQueryParams fs)) = Some true
            <-> value f = "true"%string)
        /\ (hidden (queryParams (mapFiltersToQueryParams fs)) = Some false
            <-> value f <> "true"%string))
  /\ (object (queryParams (mapFiltersToQueryParams fs))
      = Some (objectFilters (mapFiltersToQueryParams fs))
      <-> 0 < objectKeysLength (objectFilters (mapFiltersToQueryParams fs)))
  /\ (object (queryParams (mapFiltersToQueryParams fs)) = None
      <-> objectKeysLength (objectFilters (mapFiltersToQueryParams fs)) = 0)
  /\ (objectKeysLength (objectFilters (mapFiltersToQueryParams fs)) = 0
      <-> forall f : SetFilter, In f fs -> writesObject f = false).
Proof.
  rewrite mapFiltersToQueryParams_fields. cbv zeta.
  cbn [queryParams objectFilters hidden object].
  split; [|split; [|split; [|split]]].
  - now intros ->.
  - intros pre f post -> Ht Hpost.
    assert (Hh : hiddenAfter (ofType Hidden (pre ++ f :: post)) None
                 = Some (String.eqb (value f) "true")).
    { rewrite ofType_app. change (f :: post) with ([f] ++ post).
      rewrite ofType_app, Hpost, app_nil_r.
      unfold ofType at 2. cbn [filter]. rewrite Ht. cbn [FilterType_eqb].
      apply hiddenAfter_last. }
    rewrite Hh. split; [reflexivity|]. split.
    + rewrite <- String.eqb_eq. split; congruence.
    + rewrite <- String.eqb_neq. split; congruence.
  - destruct (0 <? objectKeysLength _)%nat eqn:Hl.
    + apply Nat.ltb_lt in Hl. tauto.
    + apply Nat.ltb_ge in Hl. split; [discriminate | lia].
  - destruct (0 <? objectKeysLength _)%nat eqn:Hl.
    + apply Nat.ltb_lt in Hl. split; [discriminate | lia].
    + apply Nat.ltb_ge in Hl. split; [lia | reflexivity].
  - rewrite objectKeysLength_zero. cbn [tags kind category].
    rewrite !accumulate_none, !ofType_nil_iff. split.
    + intros [H1 [H2 H3]] f Hf. apply writesObject_false. auto.
    + intros H. repeat split; intros f Hf; apply H, writesObject_false in Hf; tauto.
Qed.

(** The shape at a hidden filter followed by a location, and at a tag. *)
Lemma mapFiltersToQueryParams_shape_witness :
  hidden (queryParams (mapFiltersToQueryParams
                         [mkSet hiddenFalse true true; mkSet hiddenTrue true true;
                          mkSet locationHome true false]))
  = Some true
  /\ object (queryParams (mapFiltersToQueryParams [mkSet tagWork true true]))
     = Some (objectFilters (mapFiltersToQueryParams [mkSet tagWork true true])).
Proof.
  split.
  - apply (proj1 (proj2 (proj1 (proj2
             (mapFiltersToQueryParams_shape
                [mkSet hiddenFalse true true; mkSet hiddenTrue true true;
                 mkSet locationHome true false]))
             [mkSet hiddenFalse true true] (mkSet hiddenTrue true true)
             [mkSet locationHome true false] eq_refl eq_refl eq_refl))).
    reflexivity.
  - apply (proj1 (proj2 (proj2
             (mapFiltersToQueryParams_shape [mkSet tagWork true true])))).
    vm_compute. lia.
Defined.

(** C5, as the claim has it, fails: two selections with the same two
    Hidden filters, selected in opposite orders, derive different queries,
    whatever the accumulating helper does. *)
Lemma hidden_depends_on_order :
  Permutation
    (JsMap.values (selectedFilters
       (selectFilter hiddenFalse true true
          (selectFilter hiddenTrue true true initialStore))))
    (JsMap.values (selectedFilters
       (selectFilter hiddenTrue true true
          (selectFilter hiddenFalse true true initialStore))))
  /\ forall E : Externals,
       @mapFiltersToQueryParams E
         (JsMap.values (selectedFilters
            (selectFilter hiddenFalse true true
               (selectFilter hiddenTrue true true initialStore))))
       <> @mapFiltersToQueryParams E
            (JsMap.values (selectedFilters
               (selectFilter hiddenTrue true true
                  (selectFilter hiddenFalse true true initialStore)))).
Proof.
  split.
  - apply perm_swap.
  - intros E H.
    apply (f_equal (fun r => hidden (queryParams r))) in H.
    vm_compute in H. discriminate.
Qed.

(** C5, amended.  The derived query depends on the list only through, for
    each filter type, the filters of that type in their order: two lists
    that agree on these give the same result, however the types are
    interleaved. *)
Theorem mapFiltersToQueryParams_by_type {E : Externals} (l1 l2 : list SetFilter) :
  (forall t, ofType t l1 = ofType t l2) ->
  mapFiltersToQueryParams l1 = mapFiltersToQueryParams l2.
Proof.
  intros H. rewrite !mapFiltersToQueryParams_fields. now rewrite !H.
Qed.

(** A selection of three filters of three types, in two orders. *)
Lemma mapFiltersToQueryParams_by_type_witness :
  Permutation
    [mkSet locationHome true false; mkSet tagWork false true; mkSet hiddenTrue true true]
    [mkSet hiddenTrue true true; mkSet tagWork false true; mkSet locationHome true false]
  /\ mapFiltersToQueryParams
       [mkSet locationHome true false; mkSet tagWork false true; mkSet hiddenTrue true true]
     = mapFiltersToQueryParams
         [mkSet hiddenTrue true true; mkSet tagWork false true;
          mkSet locationHome true false].
Proof.
  split.
  - apply Permutation_rev.
  - apply mapFiltersToQueryParams_by_type. intros t. now destruct t.
Defined.

(** ** The maps of the store keep their keys apart *)

Section WellFormed.
Implicit Types (s : SearchStore).

Lemma wfStore_initial : wfStore initialStore.
Proof. split; apply JsMapFacts.wf_empty. Qed.

Lemma fold_wfStore {A : Type} (body : SearchStore -> A -> SearchStore) l s :
  (forall s x, wfStore s -> wfStore (body s x)) ->
  wfStore s -> wfStore (fold_left body l s).
Proof.
  intros Hbody. revert s.
  induction l as [|x l IH]; intros s Hs; simpl; [assumption|].
  apply IH. now apply Hbody.
Qed.

Lemma selectFilter_wf f c r s : wfStore s -> wfStore (selectFilter f c r s).
Proof. intros [Hr Hs]. split; [assumption|]. now apply JsMapFacts.wf_set. Qed.

Lemma with_registered_set_wf k (f : Filter) s :
  wfStore s ->
  wfStore (with_registeredFilters (JsMap.set k f (registeredFilters s)) s).
Proof. intros [Hr Hs]. split; [|assumption]. now apply JsMapFacts.wf_set. Qed.

(** Every operation of the store keeps both maps free of repeated keys,
    so the lists stand for JavaScript maps all along. *)
Lemma step_wf s op : wfStore s -> wfStore (step s op).
Proof.
  intros Hs. destruct op; simpl.
  - now apply selectFilter_wf.
  - unfold deselectFilter.
    destruct (match JsMap.get _ _ with Some e => canBeRemoved e | None => true end);
      [|assumption].
    destruct Hs as [Hr Hsel]. split; [assumption|].
    now apply JsMapFacts.wf_delete.
  - destruct Hs as [Hr Hsel]. split; [assumption | constructor].
  - unfold useSearchFilter_effect, registerFilters.
    apply fold_wfStore; [|assumption].
    intros s0 x H0. destruct (negb _); [|assumption].
    now apply with_registered_set_wf.
  - unfold useSearchFilters_effect.
    assert (Hreset : wfStore (resetSearchStore s)).
    { destruct Hs as [Hr Hsel]. split; [assumption | constructor]. }
    destruct fixedFilters as [l|]; [|assumption].
    apply fold_wfStore; [|assumption].
    intros s0 x H0. unfold fixedFilter_step.
    destruct (JsString.truthy (name x)); [|assumption].
    now apply selectFilter_wf, with_registered_set_wf.
  - unfold loadSearch. destruct (find _ searches) as [search|]; [|assumption].
    apply fold_wfStore.
    + intros s0 x H0. unfold loadSearch_step.
      now apply selectFilter_wf, with_registered_set_wf.
    + destruct Hs as [Hr Hsel]. split; [assumption | constructor].
Qed.

Lemma run_wf ops s : wfStore s -> wfStore (run ops s).
Proof. apply fold_wfStore. intros s0 op. apply step_wf. Qed.

End WellFormed.

(** ** The examples of the specification, run on the model *)

Section Examples.

(** Selecting the tag [Work] puts [3] under [tags]; deselecting it leaves
    the object filters empty and [object] absent. *)
Example select_tag_derives_tags :
  tags (objectFilters
          (mapFiltersToQueryParams
             (JsMap.values
                (selectedFilters (selectFilter tagWork true true initialStore)))))
  = Some (SpecExternals.In_ [Some 3%Z]).
Proof. reflexivity. Qed.

Example deselect_tag_omits_object :
  queryParams
    (mapFiltersToQueryParams
       (JsMap.values
          (selectedFilters
             (deselectFilter tagWork
                (selectFilter tagWork true true initialStore)))))
  = emptyQueryParams.
Proof. reflexivity. Qed.

(** A fixed location is selected as not removable, and deselecting it
    changes nothing. *)
Example fixed_location_stays :
  deselectFilter locationHome
    (useSearchFilters_effect (Some [locationHome]) initialStore)
  = useSearchFilters_effect (Some [locationHome]) initialStore.
Proof. reflexivity. Qed.

(** The mount effect registers a fixed filter under its value, where the
    registration effect and [loadSearch] register under [getKey]. *)
Example fixed_location_registered_under_value :
  JsMap.keys (registeredFilters
                (useSearchFilters_effect (Some [locationHome]) initialStore))
  = ["1"%string]
  /\ JsMap.keys (registeredFilters
                   (useSearchFilter_effect Location (Some [args locationHome])
                      initialStore))
     = ["Location-Home-1"%string].
Proof. split; reflexivity. Qed.

(** With the helper as the specification describes it, the order of two
    filters of one type shows in the result. *)
Example tags_depend_on_order :
  mapFiltersToQueryParams
    [mkSet (mkFilter Tag "A" "1") true true; mkSet (mkFilter Tag "B" "2") false true]
  <> mapFiltersToQueryParams
       [mkSet (mkFilter Tag "B" "2") false true; mkSet (mkFilter Tag "A" "1") true true].
Proof. discriminate. Qed.

Example parseInt_examples :
  SpecExternals.parseInt "42" = Some 42%Z
  /\ SpecExternals.parseInt "  -12px" = Some (-12)%Z
  /\ SpecExternals.parseInt "0x1F" = Some 31%Z
  /\ SpecExternals.parseInt "abc" = None.
Proof. repeat split. Qed.

End Examples.


(* ================================================================== *)
(** * Further properties of the store *)

(** ** Invariants of the store along its operations *)

Section StoreInvariants.
Implicit Types (s : SearchStore).

Lemma with_selectedFilters_same s : with_selectedFilters (selectedFilters s) s = s.
Proof. now destruct s. Qed.

Lemma step_selectionKeyed s op : selectionKeyed s -> selectionKeyed (step s op).
Proof.
  intros Hs. destruct op; simpl.
  - intros k e Hin. unfold selectFilter in Hin. simpl in Hin.
    apply in_set_inv in Hin. destruct Hin as [[-> ->]|Hin]; [reflexivity | auto].
  - intros k e Hin. unfold deselectFilter in Hin.
    destruct (match JsMap.get _ _ with Some e0 => canBeRemoved e0 | None => true end);
      [|auto].
    simpl in Hin. apply in_delete_inv in Hin. auto.
  - intros k e [].
  - intros k e. unfold useSearchFilter_effect. rewrite registerFilters_selected.
    apply Hs.
  - intros k e. unfold useSearchFilters_effect.
    destruct fixedFilters as [l|]; [|intros []].
    rewrite fixedFilters_loop_selected. intros Hin.
    apply in_setAll_inv in Hin. destruct Hin as [Hin|[]].
    apply in_map_iff in Hin. now destruct Hin as [f [[= <- <-] _]].
  - intros k e. unfold loadSearch.
    destruct (find _ searches) as [search|]; [|apply Hs].
    rewrite loadSearch_loop_selected. intros Hin.
    apply in_setAll_inv in Hin. destruct Hin as [Hin|[]].
    apply in_map_iff in Hin. now destruct Hin as [sf [[= <- <-] _]].
Qed.

Lemma run_selectionKeyed ops s : selectionKeyed s -> selectionKeyed (run ops s).
Proof.
  unfold run. revert s. induction ops as [|op ops IH]; intros s Hs; [assumption|].
  simpl. now apply IH, step_selectionKeyed.
Qed.

Lemma step_registered_mono s op k :
  JsMap.has k (registeredFilters s) = true ->
  JsMap.has k (registeredFilters (step s op)) = true.
Proof.
  intros Hk. destruct op; simpl.
  - assumption.
  - now rewrite deselectFilter_registered.
  - assumption.
  - now apply registerFilters_has_old.
  - unfold useSearchFilters_effect. destruct fixedFilters as [l|]; [|assumption].
    now apply fixedFilters_loop_registered_mono.
  - unfold loadSearch. destruct (find _ searches) as [search|]; [|assumption].
    rewrite loadSearch_loop_registered. apply has_setAll. now right.
Qed.

End StoreInvariants.

(** X1.  In every store reached from the initial one, whatever the
    operations, each entry of the selection stands under the key [getKey]
    gives its own filter. *)
Theorem selection_keys_are_getKey (ops : list StoreOp) :
  forall k e, In (k, e) (selectedFilters (run ops initialStore)) -> k = getKey e.
Proof.
  apply run_selectionKeyed. intros k e [].
Qed.

(** X2.  No operation of the store takes a key out of the registry: a
    registered key stays registered along every sequence of operations. *)
Theorem registry_never_shrinks (ops : list StoreOp) (s : SearchStore) (k : string) :
  JsMap.has k (registeredFilters s) = true ->
  JsMap.has k (registeredFilters (run ops s)) = true.
Proof.
  unfold run. revert s. induction ops as [|op ops IH]; intros s Hk; [assumption|].
  simpl. now apply IH, step_registered_mono.
Qed.

(** A registered tag through a mount with other fixed filters, a load and
    a reset. *)
Lemma registry_never_shrinks_witness :
  JsMap.has "Tag-Work-3"
    (registeredFilters
       (run [ OpFixedFilters (Some [locationHome]); OpLoadSearch [savedWork] 7;
              OpDeselect tagWork; OpResetStore; OpFixedFilters None ]
          (useSearchFilter_effect Tag (Some [args tagWork]) initialStore)))
  = true.
Proof.
  apply registry_never_shrinks. reflexivity.
Defined.

(** ** When the composite key tells filters apart *)

Section KeyInjective.
Local Open Scope string_scope.

Lemma dash_split a a' b b' :
  noDash a = true -> noDash a' = true ->
  a ++ "-" ++ b = a' ++ "-" ++ b' -> a = a' /\ b = b'.
Proof.
  revert a'. induction a as [|c a IH]; intros [|c' a']; simpl.
  - intros _ _ [= ->]. auto.
  - intros _ Hd [= <- _]. discriminate.
  - intros Hd _ [= -> _]. discriminate.
  - intros Hd Hd' [= -> Heq].
    apply andb_true_iff in Hd, Hd'. destruct Hd as [_ Hd], Hd' as [_ Hd'].
    destruct (IH a' Hd Hd' Heq) as [-> ->]. auto.
Qed.

Lemma FilterType_name_noDash t : noDash (FilterType_name t) = true.
Proof. now destruct t. Qed.

Lemma FilterType_name_inj t t' : FilterType_name t = FilterType_name t' -> t = t'.
Proof. destruct t, t'; simpl; intros H; (reflexivity || discriminate). Qed.

End KeyInjective.

Lemma getKeyOf_string (f : Filter) : getKeyOf (fun v => v) (ofFilter f) = getKey f.
Proof. reflexivity. Qed.

(** X3.  Two filters whose names have no [-] and whose keys are equal have
    the same type and name, and values with the same string form: [getKey]
    confuses filters only through a [-] inside a name, or through two values
    that read the same as strings. *)
Theorem getKey_injective_without_dash {A : Type} (toString : A -> string)
    (f g : FilterOf A) :
  noDash (nameOf f) = true -> noDash (nameOf g) = true ->
  getKeyOf toString f = getKeyOf toString g ->
  typeOf f = typeOf g /\ nameOf f = nameOf g
  /\ toString (valueOf f) = toString (valueOf g).
Proof.
  intros Hf Hg. unfold getKeyOf, JsString.concat. intros Hk.
  apply dash_split in Hk; try apply FilterType_name_noDash.
  destruct Hk as [Ht Hk]. apply FilterType_name_inj in Ht.
  apply dash_split in Hk; try assumption.
  destruct Hk as [Hn Hv]. auto.
Qed.

(** The boolean [true] and the string "true" as the value of a Hidden
    filter: one key, two values. *)
Lemma getKey_injective_without_dash_witness :
  toStringOf (ABool true) = toStringOf (AString "true")
  /\ ABool true <> AString "true".
Proof.
  split; [|discriminate].
  apply (getKey_injective_without_dash toStringOf
           {| typeOf := Hidden; nameOf := "Hidden"; valueOf := ABool true;
              iconOf := None |}
           {| typeOf := Hidden; nameOf := "Hidden"; valueOf := AString "true";
              iconOf := None |});
    reflexivity.
Defined.

(** ** Selecting and deselecting, composed *)

Section SelectDeselect.
Implicit Types (s : SearchStore) (f g : Filter).

Lemma deselectFilter_by_key f g s :
  getKey f = getKey g -> deselectFilter f s = deselectFilter g s.
Proof. unfold deselectFilter. now intros ->. Qed.

Lemma deselectFilter_unfold f s :
  deselectFilter f s
  = if match JsMap.get (getKey f) (selectedFilters s) with
       | Some e => canBeRemoved e
       | None => true
       end
    then with_selectedFilters (JsMap.delete (getKey f) (selectedFilters s)) s
    else s.
Proof. reflexivity. Qed.

Lemma deselectFilter_twice f s :
  deselectFilter f (deselectFilter f s) = deselectFilter f s.
Proof.
  rewrite (deselectFilter_unfold f s).
  destruct (match JsMap.get (getKey f) (selectedFilters s) with
            | Some e => canBeRemoved e
            | None => true
            end) eqn:Hr.
  - rewrite deselectFilter_unfold. simpl.
    rewrite JsMapFacts.get_delete_eq, delete_idempotent. reflexivity.
  - rewrite deselectFilter_unfold. now rewrite Hr.
Qed.

Lemma deselectFilter_swap f g s :
  getKey f <> getKey g ->
  deselectFilter f (deselectFilter g s) = deselectFilter g (deselectFilter f s).
Proof.
  intros Hne.
  rewrite (deselectFilter_unfold g s), (deselectFilter_unfold f s).
  destruct (match JsMap.get (getKey g) (selectedFilters s) with
            | Some e => canBeRemoved e
            | None => true
            end) eqn:Hg;
  destruct (match JsMap.get (getKey f) (selectedFilters s) with
            | Some e => canBeRemoved e
            | None => true
            end) eqn:Hf;
  rewrite !deselectFilter_unfold; simpl;
  rewrite ?JsMapFacts.get_delete_ne by congruence;
  rewrite ?Hg, ?Hf; simpl; try reflexivity.
  now rewrite delete_delete.
Qed.

End SelectDeselect.

(** The entries of a store after a mount and a selection. *)
Lemma selection_keys_are_getKey_witness :
  "Location-Home-1"%string = getKey (mkSet (fillIcon locationHome) true false)
  /\ "Tag-Work-3"%string = getKey (mkSet tagWork false true).
Proof.
  split.
  - apply (selection_keys_are_getKey
             [ OpFixedFilters (Some [locationHome]); OpSelect tagWork false true ]).
    simpl. auto.
  - apply (selection_keys_are_getKey
             [ OpFixedFilters (Some [locationHome]); OpSelect tagWork false true ]).
    simpl. auto.
Defined.



(** X5.  Selecting a filter as removable and deselecting it leaves no entry
    under its key, also when the entry there was a protected one before;
    when the key was not selected before, the store is back as it was.
    Selected as not removable, the filter stays through the deselection. *)
Theorem select_then_deselect (f : Filter) (c : bool) (s : SearchStore) :
  JsMap.get (getKey f)
    (selectedFilters (deselectFilter f (selectFilter f c true s))) = None
  /\ (JsMap.get (getKey f) (selectedFilters s) = None ->
      deselectFilter f (selectFilter f c true s) = s)
  /\ deselectFilter f (selectFilter f c false s) = selectFilter f c false s.
Proof.
  split; [|split].
  - rewrite deselectFilter_unfold. unfold selectFilter at 1. simpl.
    rewrite JsMapFacts.get_set_eq. simpl. apply JsMapFacts.get_delete_eq.
  - intros Hk. rewrite deselectFilter_unfold. unfold selectFilter. simpl.
    rewrite JsMapFacts.get_set_eq. simpl.
    rewrite delete_set_absent by assumption. now destruct s.
  - rewrite deselectFilter_unfold. unfold selectFilter at 1. simpl.
    now rewrite JsMapFacts.get_set_eq.
Qed.

(** The round trip on a store that has the fixed [locationHome]. *)
Lemma select_then_deselect_witness :
  deselectFilter tagWork
    (selectFilter tagWork false true
       (useSearchFilters_effect (Some [locationHome]) initialStore))
  = useSearchFilters_effect (Some [locationHome]) initialStore.
Proof.
  apply (proj1 (proj2 (select_then_deselect tagWork false
                         (useSearchFilters_effect (Some [locationHome]) initialStore)))).
  reflexivity.
Defined.

(** X6.  Deselecting twice is deselecting once, and two deselections give
    the same store in either order. *)
Theorem deselectFilter_idempotent_commutes (f g : Filter) (s : SearchStore) :
  deselectFilter f (deselectFilter f s) = deselectFilter f s
  /\ deselectFilter f (deselectFilter g s) = deselectFilter g (deselectFilter f s).
Proof.
  split; [apply deselectFilter_twice|].
  destruct (String.eqb_spec (getKey f) (getKey g)) as [Heq|Hne].
  - rewrite (deselectFilter_by_key g f s) by congruence.
    rewrite (deselectFilter_by_key g f (deselectFilter f s)) by congruence.
    reflexivity.
  - now apply deselectFilter_swap.
Qed.

(** ** More on the search over the registry *)

Section SearchFacts.

Lemma append_assoc (a b c : string) :
  String.append (String.append a b) c = String.append a (String.append b c).
Proof. induction a as [|ch a IH]; simpl; [reflexivity | now rewrite IH]. Qed.

Lemma append_nonempty (pre q post : string) :
  q <> ""%string -> String.append pre (String.append q post) <> ""%string.
Proof. destruct pre, q; simpl; congruence. Qed.

End SearchFacts.

(** X7.  The search does not look at the case of the query: two queries
    with the same lower-case form find the same filters in the same order. *)
Theorem search_ignores_query_case {L : LowerCase} (q q' : string) (s : SearchStore) :
  toLowerCase q = toLowerCase q' ->
  searchRegisteredFilters q s = searchRegisteredFilters q' s.
Proof.
  intros H. unfold searchRegisteredFilters.
  rewrite <- (toLowerCase_truthy q), <- (toLowerCase_truthy q'), H.
  reflexivity.
Qed.

(** "WORK" and "work" over a registry with [Tag-Work-3]. *)
Lemma search_ignores_query_case_witness :
  searchRegisteredFilters "WORK"
    (useSearchFilter_effect Tag (Some [args tagWork]) initialStore)
  = searchRegisteredFilters "work"
      (useSearchFilter_effect Tag (Some [args tagWork]) initialStore)
  /\ searchRegisteredFilters "work"
       (useSearchFilter_effect Tag (Some [args tagWork]) initialStore)
     <> [].
Proof.
  split.
  - apply search_ignores_query_case. reflexivity.
  - discriminate.
Defined.

(** X8.  Typing more narrows the result: what an ASCII query finds, every
    non-empty part of it finds too.  The empty part is the exception, it
    finds nothing. *)
Theorem search_narrows {L : LowerCase} (q pre post : string) (s : SearchStore)
    (kf : KeyedFilter) :
  q <> ""%string ->
  JsString.isAscii (String.append pre (String.append q post)) = true ->
  In kf (searchRegisteredFilters (String.append pre (String.append q post)) s) ->
  In kf (searchRegisteredFilters q s).
Proof.
  intros Hq Hascii Hin.
  apply searchRegisteredFilters_In in Hin; [|now apply append_nonempty].
  apply searchRegisteredFilters_In; [assumption|].
  destruct Hin as [Hg Hinc]. split; [assumption|].
  rewrite (toLowerCase_ascii (String.append pre (String.append q post)))
    in Hinc by assumption.
  rewrite !JsStringFacts.isAscii_app in Hascii.
  apply andb_true_iff in Hascii. destruct Hascii as [_ Hascii].
  apply andb_true_iff in Hascii. destruct Hascii as [Haq _].
  rewrite (toLowerCase_ascii q) by assumption.
  apply JsStringFacts.includes_iff in Hinc. destruct Hinc as [a [b Hab]].
  apply JsStringFacts.includes_iff.
  rewrite !JsStringFacts.asciiLower_app in Hab.
  exists (String.append a (JsString.asciiLower pre)),
         (String.append (JsString.asciiLower post) b).
  rewrite Hab. now rewrite !append_assoc.
Qed.

(** What "Work-3" finds, "ork" finds. *)
Lemma search_narrows_witness :
  In {| keyed := {| args := args tagWork; type := Tag |}; key := "Tag-Work-3" |}
     (searchRegisteredFilters "ork"
        (useSearchFilter_effect Tag (Some [args tagWork]) initialStore))
  /\ searchRegisteredFilters ""
       (useSearchFilter_effect Tag (Some [args tagWork]) initialStore) = [].
Proof.
  split.
  - apply (search_narrows "ork" "W" "-3"); [discriminate | reflexivity |].
    simpl. left. reflexivity.
  - reflexivity.
Defined.

(** X9.  For a non-empty query the result has one filter per key of the
    registry whose lower-case form contains the lower-case query, in the
    order in which the keys were registered, and no key twice. *)
Theorem search_results_follow_registry {L : LowerCase} (q : string) (s : SearchStore) :
  q <> ""%string -> JsMap.wf (registeredFilters s) ->
  map key (searchRegisteredFilters q s)
  = filter (fun k => JsString.includes (toLowerCase k) (toLowerCase q))
           (JsMap.keys (registeredFilters s))
  /\ NoDup (map key (searchRegisteredFilters q s))
  /\ length (searchRegisteredFilters q s) <= length (registeredFilters s).
Proof.
  intros Hq Hwf. pose proof (searchRegisteredFilters_keys q s Hq) as Hk.
  split; [exact Hk|]. split.
  - rewrite Hk. now apply NoDup_filter.
  - rewrite <- (length_map key), Hk.
    unfold JsMap.keys. rewrite <- (length_map fst (registeredFilters s)).
    apply filter_length_le.
Qed.

(** Two tags and a location registered; "TAG" finds the tags, in order. *)
Lemma search_results_follow_registry_witness :
  map key
    (searchRegisteredFilters "TAG"
       (run [ OpRegister Tag (Some [args tagWork]);
              OpRegister Location (Some [args locationHome]);
              OpRegister Tag (Some [args dashInName]) ] initialStore))
  = ["Tag-Work-3"; "Tag-a-b-c"]%string.
Proof.
  rewrite (proj1 (search_results_follow_registry "TAG"
                    (run [ OpRegister Tag (Some [args tagWork]);
                           OpRegister Location (Some [args locationHome]);
                           OpRegister Tag (Some [args dashInName]) ] initialStore)
                    ltac:(discriminate)
                    ltac:(apply run_wf, wfStore_initial))).
  reflexivity.
Defined.

(** X10.  A filter that the registration effect of [useSearchFilter]
    registered is found by the search for its name. *)
Theorem registered_filter_found_by_name {L : LowerCase} (t : FilterType)
    (l : list FilterArgs) (a : FilterArgs) (s : SearchStore) :
  In a l -> name a <> ""%string ->
  exists kf,
    In kf (searchRegisteredFilters (name a) (useSearchFilter_effect t (Some l) s))
    /\ key kf = getKey {| args := a; type := t |}.
Proof.
  intros Hin Hn.
  set (x := {| keyed := {| args := a; type := t |};
               key := getKey {| args := a; type := t |} |}).
  assert (Hreg : JsMap.has (key x)
                   (registeredFilters (useSearchFilter_effect t (Some l) s)) = true).
  { unfold useSearchFilter_effect. apply registerFilters_has_new.
    unfold useSearchFilter. apply in_map_iff. now exists a. }
  apply JsMapFacts.has_true_iff in Hreg. destruct Hreg as [f Hf].
  exists {| keyed := f; key := key x |}. split; [|reflexivity].
  apply searchRegisteredFilters_In; [assumption|]. split; [exact Hf|].
  apply JsStringFacts.includes_iff.
  change (key {| keyed := f; key := key x |})
    with (getKey {| args := a; type := t |}).
  rewrite toLowerCase_getKey.
  exists (String.append (toLowerCase (FilterType_name t)) "-"),
         (String "-" (toLowerCase (value a))).
  now rewrite append_assoc.
Qed.

(** The tag [Work], registered, is found under "Work". *)
Lemma registered_filter_found_by_name_witness :
  exists kf,
    In kf (searchRegisteredFilters "Work"
             (useSearchFilter_effect Tag (Some [args locationHome; args tagWork])
                initialStore))
    /\ key kf = "Tag-Work-3"%string.
Proof.
  apply (registered_filter_found_by_name Tag [args locationHome; args tagWork]
           (args tagWork) initialStore).
  - right. left. reflexivity.
  - discriminate.
Defined.

(** ** More on the derived query *)

Section MoreQueryFacts.
Context {E : Externals}.
Implicit Types (fs : list SetFilter) (f g : SetFilter).

Lemma applyFilter_sameForQuery acc f g :
  sameForQuery f g -> applyFilter acc f = applyFilter acc g.
Proof.
  intros [Ht [Hv Hc]]. unfold applyFilter. destruct acc as [q o].
  rewrite <- Ht, <- Hv. destruct (type f) eqn:Hty; try reflexivity;
    now rewrite Hc by discriminate.
Qed.

Lemma hiddenAfter_none fs : hiddenAfter fs None = None <-> fs = [].
Proof.
  unfold hiddenAfter. split; [|now intros ->].
  destruct fs as [|f fs]; [reflexivity|]. simpl.
  generalize (String.eqb (value f) "true"). intros b H. exfalso.
  revert b H. induction fs as [|g fs IH]; intros b H; simpl in H; [discriminate|].
  now apply IH in H.
Qed.

Lemma ofType_nil_types t fs :
  ofType t fs = [] <-> forall f, In f fs -> type f <> t.
Proof.
  rewrite ofType_nil_iff. split; intros H f Hf; specialize (H f Hf).
  - intros <-. now destruct (type f).
  - destruct (type f), t; try reflexivity; now destruct H.
Qed.

End MoreQueryFacts.

(** X11.  The derived query reads the type, the value and the condition of a
    selected filter and nothing else, and it does not read the condition of a
    Hidden filter: two selections that agree on these, filter by filter,
    derive the same query. *)
Theorem query_reads_type_value_condition {E : Externals} (l1 l2 : list SetFilter) :
  Forall2 sameForQuery l1 l2 ->
  mapFiltersToQueryParams l1 = mapFiltersToQueryParams l2.
Proof.
  intros H. unfold mapFiltersToQueryParams.
  enough (Hfold : forall acc, fold_left applyFilter l1 acc = fold_left applyFilter l2 acc)
    by now rewrite Hfold.
  induction H as [|f g l1 l2 Hfg _ IH]; intros acc; simpl; [reflexivity|].
  now rewrite (applyFilter_sameForQuery acc f g Hfg), IH.
Qed.

(** "Hidden is not true" derives what "Hidden is true" derives, and the
    name, icon and removability of a tag do not show. *)
Lemma query_reads_type_value_condition_witness :
  mapFiltersToQueryParams
    [ mkSet hiddenTrue false true; mkSet tagWork true true ]
  = mapFiltersToQueryParams
      [ mkSet hiddenTrue true true; mkSet (fillIcon (mkFilter Tag "Play" "3")) true false ].
Proof.
  apply query_reads_type_value_condition.
  constructor; [|constructor; [|constructor]].
  - split; [reflexivity|]. split; [reflexivity|]. intros H. now destruct H.
  - split; [reflexivity|]. split; reflexivity.
Defined.

(** X12.  A field of the derived query is present exactly when the selection
    has a filter of the field's type, whatever the filter's value. *)
Theorem query_fields_present {E : Externals} (fs : list SetFilter) :
  (locations (queryParams (mapFiltersToQueryParams fs)) = None
   <-> forall f : SetFilter, In f fs -> type f <> Location)
  /\ (tags (objectFilters (mapFiltersToQueryParams fs)) = None
      <-> forall f : SetFilter, In f fs -> type f <> Tag)
  /\ (kind (objectFilters (mapFiltersToQueryParams fs)) = None
      <-> forall f : SetFilter, In f fs -> type f <> Kind)
  /\ (category (objectFilters (mapFiltersToQueryParams fs)) = None
      <-> forall f : SetFilter, In f fs -> type f <> Category)
  /\ (hidden (queryParams (mapFiltersToQueryParams fs)) = None
      <-> forall f : SetFilter, In f fs -> type f <> Hidden).
Proof.
  rewrite mapFiltersToQueryParams_fields. cbv zeta.
  cbn [queryParams objectFilters locations hidden tags kind category].
  rewrite !accumulate_none, hiddenAfter_none, !ofType_nil_types.
  repeat split; auto.
Qed.

(** ** The selection grouped by type *)

Section Grouping.
Implicit Types (p fs : list SetFilter) (f : SetFilter) (t : FilterType)
               (ts : list FilterType).

Lemma FilterType_eqb_eq t t' : FilterType_eqb t t' = true <-> t = t'.
Proof. destruct t, t'; simpl; split; congruence. Qed.

Lemma FilterType_eqb_neq t t' : FilterType_eqb t t' = false <-> t <> t'.
Proof. destruct t, t'; simpl; split; congruence. Qed.

Lemma existsb_type t ts : existsb (FilterType_eqb t) ts = true <-> In t ts.
Proof.
  rewrite existsb_exists. split.
  - intros [x [Hx Heq]]. apply FilterType_eqb_eq in Heq. now subst.
  - intros H. exists t. split; [assumption | now apply FilterType_eqb_eq].
Qed.

Lemma firstSeen_snoc ts t :
  firstSeen (ts ++ [t])
  = if existsb (FilterType_eqb t) (firstSeen ts) then firstSeen ts
    else firstSeen ts ++ [t].
Proof. unfold firstSeen. now rewrite fold_left_app. Qed.

Lemma firstSeen_In ts t : In t (firstSeen ts) <-> In t ts.
Proof.
  induction ts as [|t' ts IH] using rev_ind; [reflexivity|].
  rewrite firstSeen_snoc, in_app_iff. simpl.
  destruct (existsb (FilterType_eqb t') (firstSeen ts)) eqn:He.
  - apply existsb_type in He. rewrite IH. split; [auto|].
    intros [H|[<-|[]]]; [assumption | now apply IH].
  - rewrite in_app_iff, IH. simpl. tauto.
Qed.

Lemma firstSeen_NoDup ts : NoDup (firstSeen ts).
Proof.
  induction ts as [|t' ts IH] using rev_ind; [constructor|].
  rewrite firstSeen_snoc.
  destruct (existsb (FilterType_eqb t') (firstSeen ts)) eqn:He; [assumption|].
  apply NoDup_app; [assumption | repeat constructor; auto |].
  intros x Hx [<-|[]].
  apply existsb_type in Hx. congruence.
Qed.

Lemma groupOf_snoc_ne p f t :
  type f <> t -> groupOf (p ++ [f]) t = groupOf p t.
Proof.
  intros Hne. unfold groupOf. rewrite filter_app. simpl.
  apply FilterType_eqb_neq in Hne. rewrite Hne. now rewrite app_nil_r.
Qed.

Lemma groupOf_snoc_eq p f :
  groupOf (p ++ [f]) (type f)
  = {| GroupedFilters.type := type f;
       GroupedFilters.filters := GroupedFilters.filters (groupOf p (type f)) ++ [f] |}.
Proof.
  unfold groupOf. rewrite filter_app. simpl.
  now rewrite (proj2 (FilterType_eqb_eq (type f) (type f)) eq_refl).
Qed.

Lemma groupOf_map_snoc_ne p f ts :
  ~ In (type f) ts -> map (groupOf (p ++ [f])) ts = map (groupOf p) ts.
Proof.
  intros Hnin. apply map_ext_in. intros t Ht. apply groupOf_snoc_ne.
  intros <-. contradiction.
Qed.

Lemma find_group p f ts :
  find (fun group => FilterType_eqb (GroupedFilters.type group) (type f))
       (map (groupOf p) ts)
  = None <-> ~ In (type f) ts.
Proof.
  induction ts as [|t ts IH]; simpl; [tauto|].
  destruct (FilterType_eqb t (type f)) eqn:He.
  - apply FilterType_eqb_eq in He. split; [discriminate | intros H; destruct H; auto].
  - apply FilterType_eqb_neq in He. rewrite IH. tauto.
Qed.

Lemma pushToGroup_map p f ts :
  NoDup ts -> In (type f) ts ->
  pushToGroup (type f) f (map (groupOf p) ts) = map (groupOf (p ++ [f])) ts.
Proof.
  induction ts as [|t ts IH]; intros Hnd Hin; [destruct Hin|].
  inversion Hnd as [|? ? Hnin Hnd']; subst. simpl.
  destruct (FilterType_eqb t (type f)) eqn:He.
  - apply FilterType_eqb_eq in He. subst t.
    rewrite groupOf_snoc_eq, groupOf_map_snoc_ne by assumption. reflexivity.
  - apply FilterType_eqb_neq in He.
    rewrite groupOf_snoc_ne by congruence.
    rewrite IH; [reflexivity | assumption |].
    destruct Hin as [Heq|Hin]; [congruence | assumption].
Qed.

(** One turn of the loop, on the groups of the filters seen so far. *)
Lemma groupFilter_map p f ts :
  NoDup ts -> (forall g : SetFilter, In g p -> In (type g) ts) ->
  groupFilter (map (groupOf p) ts) f
  = map (groupOf (p ++ [f]))
        (if existsb (FilterType_eqb (type f)) ts then ts else ts ++ [type f]).
Proof.
  intros Hnd Hcover. unfold groupFilter.
  destruct (find _ (map (groupOf p) ts)) as [group|] eqn:Hfind.
  - assert (Hin : In (type f) ts).
    { destruct (existsb (FilterType_eqb (type f)) ts) eqn:He;
        [now apply existsb_type|].
      assert (Hn : ~ In (type f) ts)
        by (intros H; apply existsb_type in H; congruence).
      apply find_group with (p := p) in Hn. congruence. }
    rewrite (proj2 (existsb_type _ _) Hin). now apply pushToGroup_map.
  - apply find_group in Hfind.
    assert (He : existsb (FilterType_eqb (type f)) ts = false).
    { destruct (existsb _ ts) eqn:He; [|reflexivity].
      apply existsb_type in He. contradiction. }
    rewrite He, map_app, groupOf_map_snoc_ne by assumption. simpl.
    f_equal. f_equal. unfold groupOf. rewrite filter_app. simpl.
    rewrite (proj2 (FilterType_eqb_eq (type f) (type f)) eq_refl).
    f_equal.
    assert (Hnil : filter (fun g : SetFilter => FilterType_eqb (type g) (type f)) p = []).
    { apply ofType_nil_iff. intros g Hg. apply FilterType_eqb_neq.
      intros Heq. apply Hfind. rewrite <- Heq. now apply Hcover. }
    now rewrite Hnil.
Qed.

Lemma groupFilter_loop p rest :
  fold_left groupFilter rest
    (map (groupOf p) (firstSeen (map (fun f : SetFilter => type f) p)))
  = map (groupOf (p ++ rest))
        (firstSeen (map (fun f : SetFilter => type f) (p ++ rest))).
Proof.
  revert p. induction rest as [|f rest IH]; intros p; simpl.
  - now rewrite app_nil_r.
  - rewrite groupFilter_map.
    + rewrite <- firstSeen_snoc.
      change [type f] with (map (fun f : SetFilter => type f) [f]).
      rewrite <- map_app, IH, <- app_assoc. reflexivity.
    + apply firstSeen_NoDup.
    + intros g Hg. apply firstSeen_In.
      now apply (in_map (fun f : SetFilter => type f)).
Qed.

(** The groups are the types of the selection in the order of their first
    occurrence, each with the selected filters of its type in their order. *)
Lemma getSelectedFiltersGrouped_eq (s : SearchStore) :
  getSelectedFiltersGrouped s
  = map (groupOf (JsMap.values (selectedFilters s)))
        (firstSeen (map (fun f : SetFilter => type f)
                      (JsMap.values (selectedFilters s)))).
Proof.
  unfold getSelectedFiltersGrouped. apply (groupFilter_loop [] _).
Qed.

Lemma concat_nil_groups ts :
  concat (map (fun t => GroupedFilters.filters (groupOf [] t)) ts) = [].
Proof. induction ts as [|t ts IH]; simpl; [reflexivity | exact IH]. Qed.

Lemma groupOf_cons f fs t :
  GroupedFilters.filters (groupOf (f :: fs) t)
  = if FilterType_eqb (type f) t
    then f :: GroupedFilters.filters (groupOf fs t)
    else GroupedFilters.filters (groupOf fs t).
Proof. unfold groupOf. simpl. now destruct (FilterType_eqb (type f) t). Qed.

Lemma concat_groups_cons f fs ts :
  NoDup ts -> In (type f) ts ->
  Permutation
    (concat (map (fun t => GroupedFilters.filters (groupOf (f :: fs) t)) ts))
    (f :: concat (map (fun t => GroupedFilters.filters (groupOf fs t)) ts)).
Proof.
  induction ts as [|t ts IH]; intros Hnd Hin; [destruct Hin|].
  inversion Hnd as [|? ? Hnin Hnd']; subst.
  cbn [map concat]. rewrite groupOf_cons.
  destruct (FilterType_eqb (type f) t) eqn:He.
  - apply FilterType_eqb_eq in He. subst t.
    assert (Hsame : map (fun t => GroupedFilters.filters (groupOf (f :: fs) t)) ts
                    = map (fun t => GroupedFilters.filters (groupOf fs t)) ts).
    { apply map_ext_in. intros t Ht. rewrite groupOf_cons.
      assert (Hne : FilterType_eqb (type f) t = false)
        by (apply FilterType_eqb_neq; intros <-; contradiction).
      now rewrite Hne. }
    rewrite Hsame, <- app_comm_cons. apply Permutation_refl.
  - apply FilterType_eqb_neq in He.
    destruct Hin as [Heq|Hin]; [congruence|].
    eapply Permutation_trans.
    + apply Permutation_app_head. now apply IH.
    + apply Permutation_sym, Permutation_middle.
Qed.

Lemma concat_groups_perm fs ts :
  NoDup ts -> (forall f : SetFilter, In f fs -> In (type f) ts) ->
  Permutation (concat (map (fun t => GroupedFilters.filters (groupOf fs t)) ts)) fs.
Proof.
  intros Hnd. induction fs as [|f fs IH]; intros Hcover.
  - now rewrite concat_nil_groups.
  - eapply Permutation_trans.
    + apply concat_groups_cons; [assumption | apply Hcover; now left].
    + apply perm_skip. apply IH. intros g Hg. apply Hcover. now right.
Qed.

End Grouping.

(** X13.  [getSelectedFiltersGrouped] lists the types of the selected
    filters in the order in which they first occur in the selection, and the
    group of a type holds the selected filters of that type in the order of
    the selection. *)
Theorem groups_in_first_seen_order (s : SearchStore) :
  map GroupedFilters.type (getSelectedFiltersGrouped s)
  = firstSeen (map (fun f : SetFilter => type f) (JsMap.values (selectedFilters s)))
  /\ forall group, In group (getSelectedFiltersGrouped s) ->
       GroupedFilters.filters group
       = filter (fun f : SetFilter => FilterType_eqb (type f) (GroupedFilters.type group))
                (JsMap.values (selectedFilters s)).
Proof.
  rewrite getSelectedFiltersGrouped_eq. split.
  - rewrite map_map. simpl. apply map_id.
  - intros group Hin. apply in_map_iff in Hin. now destruct Hin as [t [<- _]].
Qed.

(** X14.  The groups split the selection: every selected filter is in one
    group and one only, the one of its type; no two groups have the same
    type and no group is empty. *)
Theorem groups_partition_selection (s : SearchStore) :
  Permutation
    (concat (map GroupedFilters.filters (getSelectedFiltersGrouped s)))
    (JsMap.values (selectedFilters s))
  /\ NoDup (map GroupedFilters.type (getSelectedFiltersGrouped s))
  /\ forall group, In group (getSelectedFiltersGrouped s) ->
       GroupedFilters.filters group <> []
       /\ forall f : SetFilter, In f (GroupedFilters.filters group) ->
            type f = GroupedFilters.type group.
Proof.
  rewrite getSelectedFiltersGrouped_eq. rewrite !map_map. simpl.
  split; [|split].
  - apply concat_groups_perm; [apply firstSeen_NoDup|].
    intros f Hf. apply firstSeen_In.
      now apply (in_map (fun f : SetFilter => type f)).
  - rewrite map_id. apply firstSeen_NoDup.
  - intros group Hin. apply in_map_iff in Hin. destruct Hin as [t [<- Ht]].
    simpl. split.
    + apply firstSeen_In, in_map_iff in Ht. destruct Ht as [f [Hf Hin]].
      intros Hnil.
      assert (Hin' : In f (filter (fun g : SetFilter => FilterType_eqb (type g) t)
                             (JsMap.values (selectedFilters s)))).
      { apply filter_In. split; [assumption | now apply FilterType_eqb_eq]. }
      rewrite Hnil in Hin'. destruct Hin'.
    + intros f Hf. apply filter_In in Hf. now apply FilterType_eqb_eq.
Qed.

(** ** Saving the selection and loading it again; running a load or a mount twice *)

Section SaveLoad.
Implicit Types (s : SearchStore) (e : SetFilter).

Lemma or_else_truthy (o : option string) (d : string) :
  JsString.truthy d = true -> JsString.truthy (JsString.or_else o d) = true.
Proof.
  intros Hd. unfold JsString.or_else. destruct o as [x|]; [|assumption].
  now destruct (JsString.truthy x) eqn:Hx.
Qed.

Lemma or_else_again (o : option string) :
  JsString.or_else (Some (JsString.or_else o "Folder")) ""
  = JsString.or_else o "Folder".
Proof.
  unfold JsString.or_else at 1. now rewrite or_else_truthy.
Qed.

Lemma reloaded_fields e :
  type (reloaded e) = type e /\ name (reloaded e) = name e
  /\ value (reloaded e) = value e
  /\ icon (reloaded e) = Some (JsString.or_else (icon e) "Folder")
  /\ condition (reloaded e) = true /\ canBeRemoved (reloaded e) = true.
Proof.
  split; [reflexivity|]. split; [reflexivity|]. split; [reflexivity|].
  split; [|split; reflexivity].
  change (icon (reloaded e))
    with (Some (JsString.or_else (Some (JsString.or_else (icon e) "Folder")) "")).
  now rewrite or_else_again.
Qed.

Lemma getKey_reloaded e : getKey (savedToFilter (toSavedFilter e)) = getKey e.
Proof. reflexivity. Qed.

Lemma loadSearch_loop_eq l s :
  fold_left loadSearch_step l s
  = with_selectedFilters
      (setAll (map (fun sf => selectedEntry (savedToFilter sf) true true) l)
         (selectedFilters s))
      (with_registeredFilters
         (setAll (map (fun sf => (getKey (savedToFilter sf), savedToFilter sf)) l)
            (registeredFilters s))
         s).
Proof.
  revert s. induction l as [|sf l IH]; intros s; simpl; [now destruct s|].
  rewrite IH. reflexivity.
Qed.

Lemma fillIcon_idempotent (f : Filter) : fillIcon (fillIcon f) = fillIcon f.
Proof.
  destruct (JsString.truthy_opt (icon f)) eqn:Hi.
  - assert (Hf : fillIcon f = f) by (unfold fillIcon; now rewrite Hi).
    now rewrite !Hf.
  - assert (Hf : fillIcon f
                 = {| args := {| value := value f; name := name f;
                                 icon := Some (name f) |};
                      type := type f |})
      by (unfold fillIcon; now rewrite Hi).
    rewrite Hf. unfold fillIcon. simpl.
    now destruct (JsString.truthy (name f)).
Qed.

Lemma named_fillIcon (l : list Filter) : named (map fillIcon l) = map fillIcon (named l).
Proof.
  unfold named. induction l as [|f l IH]; simpl; [reflexivity|].
  rewrite (proj1 (proj2 (fillIcon_spec f))).
  destruct (JsString.truthy (name f)); simpl; now rewrite IH.
Qed.

Lemma fixedFilters_loop_eq l s :
  fold_left fixedFilter_step l s
  = with_selectedFilters
      (setAll (map (fun f => selectedEntry (fillIcon f) true false) (named l))
         (selectedFilters s))
      (with_registeredFilters
         (setAll (map (fun f => (value (fillIcon f), fillIcon f)) (named l))
            (registeredFilters s))
         s).
Proof.
  unfold named. revert s.
  induction l as [|f l IH]; intros s; simpl; [now destruct s|].
  rewrite IH. unfold fixedFilter_step.
  now destruct (JsString.truthy (name f)).
Qed.

End SaveLoad.

(** X15.  A selection that was saved and loaded again has its keys in their
    order, and under each key the filter with its type, name and value; the
    condition and the removability come back as [true], also for a filter
    that was negated or protected, and a missing icon comes back as
    ["Folder"]. *)
Theorem save_then_load (ops : list StoreOp) (n : string)
    (searches : list SavedSearch) (i : Z) (search : SavedSearch) (s' : SearchStore) :
  findSearch searches i = Some search ->
  filters search = Some (CreateArgs.filters (saveSearch n (run ops initialStore))) ->
  selectedFilters (loadSearch searches i s')
  = map (fun kv => (fst kv, reloaded (snd kv))) (selectedFilters (run ops initialStore))
  /\ forall e : SetFilter,
       type (reloaded e) = type e /\ name (reloaded e) = name e
       /\ value (reloaded e) = value e
       /\ icon (reloaded e) = Some (JsString.or_else (icon e) "Folder")
       /\ condition (reloaded e) = true /\ canBeRemoved (reloaded e) = true.
Proof.
  intros Hfind Hfilters. split; [|apply reloaded_fields].
  unfold loadSearch. unfold findSearch in Hfind. rewrite Hfind.
  rewrite loadSearch_loop_selected, Hfilters. simpl.
  unfold JsMap.clear, JsMap.values. rewrite !map_map.
  assert (Hkeyed : selectionKeyed (run ops initialStore))
    by (apply run_selectionKeyed; intros k e []).
  assert (Hwf : JsMap.wf (selectedFilters (run ops initialStore)))
    by (apply run_wf, wfStore_initial).
  assert (Hmap : map (fun x => selectedEntry (savedToFilter (toSavedFilter (snd x)))
                                 true true)
                     (selectedFilters (run ops initialStore))
                 = map (fun kv => (fst kv, reloaded (snd kv)))
                       (selectedFilters (run ops initialStore))).
  { apply map_ext_in. intros [k e] Hin. unfold selectedEntry. simpl.
    now rewrite (Hkeyed k e Hin). }
  rewrite Hmap. rewrite setAll_fresh; [reflexivity | | reflexivity].
  rewrite map_map. simpl. exact Hwf.
Qed.

(** A protected location and a negated tag, saved and loaded. *)
Lemma save_then_load_witness :
  selectedFilters
    (loadSearch
       [ {| id := 1;
            filters :=
              Some (CreateArgs.filters
                      (saveSearch "mine"
                         (run [ OpFixedFilters (Some [locationHome]);
                                OpSelect tagWork false true ] initialStore))) |} ]
       1 initialStore)
  = [ ("Location-Home-1"%string, reloaded (mkSet (fillIcon locationHome) true false));
      ("Tag-Work-3"%string, reloaded (mkSet tagWork false true)) ].
Proof.
  exact (proj1
           (save_then_load
              [ OpFixedFilters (Some [locationHome]); OpSelect tagWork false true ]
              "mine"
              [ {| id := 1;
                   filters :=
                     Some (CreateArgs.filters
                             (saveSearch "mine"
                                (run [ OpFixedFilters (Some [locationHome]);
                                       OpSelect tagWork false true ] initialStore))) |} ]
              1
              {| id := 1;
                 filters :=
                   Some (CreateArgs.filters
                           (saveSearch "mine"
                              (run [ OpFixedFilters (Some [locationHome]);
                                     OpSelect tagWork false true ] initialStore))) |}
              initialStore eq_refl eq_refl)).
Defined.

(** X16.  Loading the same saved search twice gives the store of the first
    load. *)
Theorem loadSearch_idempotent (searches : list SavedSearch) (i : Z) (s : SearchStore) :
  JsMap.wf (registeredFilters s) ->
  loadSearch searches i (loadSearch searches i s) = loadSearch searches i s.
Proof.
  intros Hwf. unfold loadSearch.
  destruct (find _ searches) as [search|]; [|reflexivity].
  rewrite !loadSearch_loop_eq. destruct s; simpl in *.
  unfold JsMap.clear. now rewrite setAll_idempotent.
Qed.

(** Two loads of [savedWork] over a store with a selection. *)
Lemma loadSearch_idempotent_witness :
  loadSearch [savedWork] 7
    (loadSearch [savedWork] 7
       (run [ OpRegister Tag (Some [args tagWork]); OpSelect locationHome true true ]
          initialStore))
  = loadSearch [savedWork] 7
      (run [ OpRegister Tag (Some [args tagWork]); OpSelect locationHome true true ]
         initialStore).
Proof.
  apply loadSearch_idempotent. apply run_wf, wfStore_initial.
Defined.

(** X17.  Running the mount effect of [useSearchFilters] again on the same
    fixed filters, as they are or with the icons the first run filled in,
    gives the store of the first run. *)
Theorem fixedFilters_effect_idempotent (fixedFilters : list Filter) (s : SearchStore) :
  JsMap.wf (registeredFilters s) ->
  useSearchFilters_effect (Some fixedFilters)
    (useSearchFilters_effect (Some fixedFilters) s)
  = useSearchFilters_effect (Some fixedFilters) s
  /\ useSearchFilters_effect (Some (map fillIcon fixedFilters))
       (useSearchFilters_effect (Some fixedFilters) s)
     = useSearchFilters_effect (Some fixedFilters) s.
Proof.
  intros Hwf. unfold useSearchFilters_effect.
  rewrite !fixedFilters_loop_eq, named_fillIcon, !map_map.
  rewrite (map_ext (fun x => selectedEntry (fillIcon (fillIcon x)) true false)
                   (fun f => selectedEntry (fillIcon f) true false))
    by (intros f; now rewrite fillIcon_idempotent).
  rewrite (map_ext (fun x => (value (fillIcon (fillIcon x)), fillIcon (fillIcon x)))
                   (fun f => (value (fillIcon f), fillIcon f)))
    by (intros f; now rewrite fillIcon_idempotent).
  destruct s; simpl in *. unfold JsMap.clear.
  now rewrite setAll_idempotent.
Qed.

(** Two mounts with [locationHome] over a store with a registered tag. *)
Lemma fixedFilters_effect_idempotent_witness :
  useSearchFilters_effect (Some [locationHome])
    (useSearchFilters_effect (Some [locationHome])
       (useSearchFilter_effect Tag (Some [args tagWork]) initialStore))
  = useSearchFilters_effect (Some [locationHome])
      (useSearchFilter_effect Tag (Some [args tagWork]) initialStore).
Proof.
  apply (proj1 (fixedFilters_effect_idempotent [locationHome]
                  (useSearchFilter_effect Tag (Some [args tagWork]) initialStore)
                  (proj1 (run_wf [OpRegister Tag (Some [args tagWork])]
                            initialStore wfStore_initial)))).
Defined.

(** ** Deselecting what is not removable or not there *)

Section DeselectNoop.
Implicit Types (s : SearchStore) (f : Filter).

Lemma deselectFilter_absent f s :
  JsMap.get (getKey f) (selectedFilters s) = None -> deselectFilter f s = s.
Proof.
  intros H. rewrite deselectFilter_unfold, H.
  rewrite JsMapFacts.delete_absent by assumption.
  apply with_selectedFilters_same.
Qed.

Lemma deselectFilter_all_protected f s :
  (forall k e, JsMap.get k (selectedFilters s) = Some e -> canBeRemoved e = false) ->
  deselectFilter f s = s.
Proof.
  intros Hall. destruct (JsMap.get (getKey f) (selectedFilters s)) as [e|] eqn:He.
  - rewrite deselectFilter_unfold, He. now rewrite (Hall _ _ He).
  - now apply deselectFilter_absent.
Qed.

Lemma mount_all_protected l s k e :
  JsMap.get k (selectedFilters (useSearchFilters_effect l s)) = Some e ->
  canBeRemoved e = false.
Proof.
  unfold useSearchFilters_effect. destruct l as [l|]; [|discriminate].
  rewrite fixedFilters_loop_selected. intros He.
  apply get_setAll_inv in He. destruct He as [He|He]; [|discriminate].
  apply in_map_iff in He. now destruct He as [f [[= <- <-] _]].
Qed.

End DeselectNoop.

(** X18.  Deselecting a filter that is not selected changes nothing, and
    right after the mount effect of [useSearchFilters] no deselection
    changes the store: what the effect selected is protected and nothing
    else is selected. *)
Theorem deselectFilter_noop (f : Filter) (s : SearchStore) :
  (JsMap.get (getKey f) (selectedFilters s) = None -> deselectFilter f s = s)
  /\ forall fixedFilters,
       deselectFilter f (useSearchFilters_effect fixedFilters s)
       = useSearchFilters_effect fixedFilters s.
Proof.
  split; [apply deselectFilter_absent|].
  intros l. apply deselectFilter_all_protected.
  intros k e. apply mount_all_protected.
Qed.

(** Deselecting an unselected tag, before and after a mount. *)
Lemma deselectFilter_noop_witness :
  deselectFilter tagWork (selectFilter locationHome true true initialStore)
  = selectFilter locationHome true true initialStore
  /\ deselectFilter locationHome
       (useSearchFilters_effect (Some [locationHome; tagWork]) initialStore)
     = useSearchFilters_effect (Some [locationHome; tagWork]) initialStore.
Proof.
  split.
  - apply (proj1 (deselectFilter_noop tagWork
                    (selectFilter locationHome true true initialStore))).
    reflexivity.
  - apply (proj2 (deselectFilter_noop locationHome initialStore)).
Defined.

(** X19.  A load that finds its search writes the registry only under the
    keys of the search's filters: every other key keeps its entry, and under
    the key of a saved filter the registry then holds a filter of the search
    with that key, whatever was registered there before. *)
Theorem loadSearch_registry (searches : list SavedSearch) (i : Z)
    (search : SavedSearch) (s : SearchStore) :
  findSearch searches i = Some search ->
  (forall k, (forall f, In f (savedFilters search) -> getKey f <> k) ->
     JsMap.get k (registeredFilters (loadSearch searches i s))
     = JsMap.get k (registeredFilters s))
  /\ (forall f, In f (savedFilters search) ->
        exists f', In f' (savedFilters search) /\ getKey f' = getKey f
                   /\ JsMap.get (getKey f) (registeredFilters (loadSearch searches i s))
                      = Some f').
Proof.
  intros Hfind. unfold loadSearch. unfold findSearch in Hfind. rewrite Hfind.
  rewrite loadSearch_loop_registered. simpl registeredFilters.
  unfold savedFilters.
  set (l := match filters search with Some l => l | None => [] end).
  set (regs := map (fun sf => (getKey (savedToFilter sf), savedToFilter sf)) l).
  assert (Hin : forall k v, In (k, v) regs -> In v (map savedToFilter l) /\ getKey v = k).
  { intros k v H. apply in_map_iff in H. destruct H as [sf [[= <- <-] H]].
    split; [now apply in_map | reflexivity]. }
  split.
  - intros k Hk. rewrite get_setAll.
    destruct (JsMap.get k (rev regs)) as [v|] eqn:Hg; [|reflexivity].
    apply JsMapFacts.get_in, in_rev, Hin in Hg. destruct Hg as [Hv Hkey].
    now destruct (Hk v Hv).
  - intros f Hf.
    assert (Hhas : JsMap.has (getKey f) (setAll regs (registeredFilters s)) = true).
    { apply has_setAll. left. exists f. apply in_map_iff in Hf.
      destruct Hf as [sf [<- Hsf]]. apply in_map_iff. now exists sf. }
    apply JsMapFacts.has_true_iff in Hhas. destruct Hhas as [v Hv].
    exists v. rewrite Hv.
    assert (Hrev : JsMap.get (getKey f) (rev regs) = Some v).
    { rewrite get_setAll in Hv.
      destruct (JsMap.get (getKey f) (rev regs)) as [v'|] eqn:Hg; [assumption|].
      exfalso. apply in_map_iff in Hf. destruct Hf as [sf [<- Hsf]].
      assert (Hk : In (getKey (savedToFilter sf)) (JsMap.keys (rev regs))).
      { unfold JsMap.keys. apply in_map_iff.
        exists (getKey (savedToFilter sf), savedToFilter sf). split; [reflexivity|].
        apply in_rev. rewrite rev_involutive. apply in_map_iff. now exists sf. }
      apply JsMapFacts.in_keys_iff, JsMapFacts.has_true_iff in Hk.
      destruct Hk as [v' Hv']. congruence. }
    apply JsMapFacts.get_in, in_rev, Hin in Hrev. destruct Hrev as [Hv' Hkey].
    auto.
Qed.

(** Loading [savedWork] over a registry that has [tagWork] and
    [locationHome]: the tag's entry is the saved one, the location's is
    kept. *)
Lemma loadSearch_registry_witness :
  JsMap.get (getKey locationHome)
    (registeredFilters
       (loadSearch [savedWork] 7
          (run [ OpRegister Tag (Some [args tagWork]);
                 OpRegister Location (Some [args locationHome]) ] initialStore)))
  = Some locationHome.
Proof.
  rewrite (proj1 (loadSearch_registry [savedWork] 7 savedWork
                    (run [ OpRegister Tag (Some [args tagWork]);
                           OpRegister Location (Some [args locationHome]) ]
                       initialStore) eq_refl)).
  - reflexivity.
  - intros f [<-|[]]. discriminate.
Defined.
